(** * SuperMoan: the intensity mapper and the single-slot intensity channel

    A model of [supermoan.c]: the function [calculate_intensity], the
    hand-off of its result to [sound_player_thread] through the globals
    [current_intensity] / [is_playing] / [running], and the two ways the
    process ends (SIGINT, device read failure).

    Conventions.
    - C [int] is a 32-bit two's complement integer, modelled as [Z] with the
      wrap-around written out ([wrap_int]); [long] is 64 bits ([wrap_long]).
    - C [double] is IEEE 754 binary64, modelled by Rocq's primitive floats, so
      [sqrt], [/], [*], [+] and [<] are the machine operations and every
      definition evaluates.
    - libm's [log] is not part of the program: it is a parameter [log] of the
      model.  A statement that needs values of [log] names them in its
      hypotheses; they are the correctly rounded natural logarithms
      ([ln_table]).
    - Code executed under [mutex] is one atomic step.
    - [handle_signal] runs on the main thread, which is the monitor: the
      player thread is created while SIGINT is blocked and inherits that
      mask.  The handler interrupts the monitor and is executed statement
      by statement, the player running in between; its [exit(0)] is a step
      of its own.  Of what the monitor writes outside the mutex the handler
      reads the two counters of [debug] only, so [calculate_intensity] is
      cut where they change ([calculate_intensity_begin],
      [calculate_intensity_end]).
    - While the player is inside [system], SIGINT is ignored by the whole
      process ([system] sets it to SIG_IGN for the time of the command).
      The player is taken to be inside [system] from the end of the
      critical section of the take to the critical section that clears
      [is_playing]; a SIGINT that arrives in [play_sound_file] before or
      after the call is the run in which it arrives just before the take
      or just after that critical section: entering the handler and a
      step of the player are independent ([sigint_entry_commutes]). *)

From Stdlib Require Import String Ascii DecimalString.
From Stdlib Require Import ZArith Bool List Lia.
From Stdlib Require Import Floats Uint63.
Import ListNotations.
Local Open Scope Z_scope.

(** ** Machine integers *)

Module CInt.

Definition INT_MIN : Z := -2147483648.
Definition INT_MAX : Z := 2147483647.

(** The value of an [int] computation whose exact result is [z]. *)
Definition wrap_int (z : Z) : Z :=
  (z + 2147483648) mod 4294967296 - 2147483648.

Definition int_mul (a b : Z) : Z := wrap_int (a * b).
Definition int_add (a b : Z) : Z := wrap_int (a + b).

Definition in_int (z : Z) : bool := (INT_MIN <=? z) && (z <=? INT_MAX).

(** The same for [long]. *)
Definition wrap_long (z : Z) : Z :=
  (z + 9223372036854775808) mod 18446744073709551616 - 9223372036854775808.

End CInt.
Export CInt.

(** ** Doubles *)

Module CDouble.

Definition double := float.

(** [(double) i] for an [int] [i]: exact, since |i| <= 2^31. *)
Definition double_of_int (i : Z) : double :=
  if i <? 0 then PrimFloat.opp (PrimFloat.of_uint63 (Uint63.of_Z (- i)))
  else PrimFloat.of_uint63 (Uint63.of_Z i).

(** [(int) x]: the fractional part is discarded (truncation toward zero).
    For a NaN, an infinity or a value outside the range of [int] the C
    standard leaves the conversion undefined; the model returns what the
    x86-64 conversion instruction returns there, [INT_MIN]. *)
Definition int_of_double (x : double) : Z :=
  match Prim2SF x with
  | S754_zero _ => 0
  | S754_finite s m e =>
      let magnitude := Z.shiftl (Z.pos m) e in
      let z := if s then - magnitude else magnitude in
      if in_int z then z else INT_MIN
  | S754_infinity _ | S754_nan => INT_MIN
  end.

End CDouble.
Export CDouble.

(** ** Constants, settings and the globals of the program *)

Definition NUM_INTENSITY_LEVELS : Z := 10.

(** Values of <linux/input-event-codes.h>. *)
Definition EV_REL : Z := 2.
Definition REL_X : Z := 0.
Definition REL_Y : Z := 1.

(** The globals written once by [main] from the command line and only read
    afterwards. *)
Record settings := {
  min_movement_threshold : double;
  max_movement_threshold : double;
  log_base : double;
  no_sound : bool
}.

Definition default_settings : settings :=
  {| min_movement_threshold := 1%float;
     max_movement_threshold := 100%float;
     log_base := 2%float;
     no_sound := false |}.

(** The three checks of [main] that precede [monitor_device]. *)
Definition settings_accepted (cfg : settings) : bool :=
  negb (min_movement_threshold cfg <=? 0)%float
  && negb (max_movement_threshold cfg <=? min_movement_threshold cfg)%float
  && negb (log_base cfg <=? 1)%float.

Record debug_stats := {
  intensity_counts : list Z;      (* long [NUM_INTENSITY_LEVELS + 1] *)
  total_movements : Z;
  last_raw_movement : double;
  last_scaled_value : double;
  enabled : bool
}.

(** What the program prints, one constructor per [printf] / [perror]. *)
Inductive message :=
| DebugBelowThreshold (movement : double)
| DebugAboveMax (movement : double) (level : Z)
| DebugIntensity (movement scaled : double) (intensity : Z)
| DebugPlaying (intensity : Z)
| DebugExecuting (intensity : Z)
| DebugPlaybackDisabled (intensity : Z)
| DebugStatistics (counts : list Z) (total : Z)
| ReceivedSigint
| ErrorReadingInputEvent.

(** Calls on the condition variable [cond]. *)
Inductive cond_call := CondSignal | CondBroadcast.

Record globals := {
  debug : debug_stats;
  current_intensity : Z;          (* 0: nothing pending *)
  is_playing : bool;
  running : bool;
  printed : list message;         (* oldest first *)
  cond_calls : list cond_call     (* oldest first *)
}.

Definition debug_init (debug_enabled : bool) : debug_stats :=
  {| intensity_counts := repeat 0 11;
     total_movements := 0;
     last_raw_movement := 0%float;
     last_scaled_value := 0%float;
     enabled := debug_enabled |}.

Definition globals_init (debug_enabled : bool) : globals :=
  {| debug := debug_init debug_enabled;
     current_intensity := 0;
     is_playing := false;
     running := true;
     printed := [];
     cond_calls := [] |}.

(** ** A state monad over the globals *)

Definition M (A : Type) : Type := globals -> A * globals.

Definition ret {A} (a : A) : M A := fun g => (a, g).

Definition bind {A B} (m : M A) (k : A -> M B) : M B :=
  fun g => let (a, g') := m g in k a g'.

Declare Scope prog_scope.
Delimit Scope prog_scope with prog.
Notation "x <- m ;; k" := (bind m (fun x => k))
  (at level 61, m at next level, right associativity) : prog_scope.
Notation "m ;; k" := (bind m (fun _ => k))
  (at level 61, right associativity) : prog_scope.

Definition modify (f : globals -> globals) : M unit := fun g => (tt, f g).
Definition gets {A} (f : globals -> A) : M A := fun g => (f g, g).

Definition set_debug (f : debug_stats -> debug_stats) (g : globals) : globals :=
  {| debug := f (debug g);
     current_intensity := current_intensity g;
     is_playing := is_playing g;
     running := running g;
     printed := printed g;
     cond_calls := cond_calls g |}.

Definition set_current_intensity (v : Z) (g : globals) : globals :=
  {| debug := debug g;
     current_intensity := v;
     is_playing := is_playing g;
     running := running g;
     printed := printed g;
     cond_calls := cond_calls g |}.

Definition set_is_playing (b : bool) (g : globals) : globals :=
  {| debug := debug g;
     current_intensity := current_intensity g;
     is_playing := b;
     running := running g;
     printed := printed g;
     cond_calls := cond_calls g |}.

Definition set_running (b : bool) (g : globals) : globals :=
  {| debug := debug g;
     current_intensity := current_intensity g;
     is_playing := is_playing g;
     running := b;
     printed := printed g;
     cond_calls := cond_calls g |}.

Definition add_printed (m : message) (g : globals) : globals :=
  {| debug := debug g;
     current_intensity := current_intensity g;
     is_playing := is_playing g;
     running := running g;
     printed := printed g ++ [m];
     cond_calls := cond_calls g |}.

Definition add_cond_call (c : cond_call) (g : globals) : globals :=
  {| debug := debug g;
     current_intensity := current_intensity g;
     is_playing := is_playing g;
     running := running g;
     printed := printed g;
     cond_calls := cond_calls g ++ [c] |}.

Definition printf (m : message) : M unit := modify (add_printed m).

(** [if (debug.enabled) printf(...)] *)
Definition debug_printf (m : message) : M unit :=
  fun g => if enabled (debug g) then printf m g else (tt, g).

Definition pthread_cond_signal : M unit := modify (add_cond_call CondSignal).
Definition pthread_cond_broadcast : M unit := modify (add_cond_call CondBroadcast).

(** ** Writes to the [debug] record *)

Definition record_raw_movement (x : double) (d : debug_stats) : debug_stats :=
  {| intensity_counts := intensity_counts d;
     total_movements := total_movements d;
     last_raw_movement := x;
     last_scaled_value := last_scaled_value d;
     enabled := enabled d |}.

Definition record_scaled_value (x : double) (d : debug_stats) : debug_stats :=
  {| intensity_counts := intensity_counts d;
     total_movements := total_movements d;
     last_raw_movement := last_raw_movement d;
     last_scaled_value := x;
     enabled := enabled d |}.

(** [a[n]++] on an array of [long]; the array has no slot outside its length. *)
Fixpoint incr_nth (n : nat) (a : list Z) : list Z :=
  match a, n with
  | [], _ => []
  | x :: a', O => wrap_long (x + 1) :: a'
  | x :: a', S n' => x :: incr_nth n' a'
  end.

Definition count_intensity (intensity : Z) (d : debug_stats) : debug_stats :=
  {| intensity_counts := incr_nth (Z.to_nat intensity) (intensity_counts d);
     total_movements := wrap_long (total_movements d + 1);
     last_raw_movement := last_raw_movement d;
     last_scaled_value := last_scaled_value d;
     enabled := enabled d |}.

(** The two increments of [count_intensity], one at a time:
    [debug.intensity_counts[intensity]++], then [debug.total_movements++]. *)
Definition count_level (intensity : Z) (d : debug_stats) : debug_stats :=
  {| intensity_counts := incr_nth (Z.to_nat intensity) (intensity_counts d);
     total_movements := total_movements d;
     last_raw_movement := last_raw_movement d;
     last_scaled_value := last_scaled_value d;
     enabled := enabled d |}.

Definition count_total (d : debug_stats) : debug_stats :=
  {| intensity_counts := intensity_counts d;
     total_movements := wrap_long (total_movements d + 1);
     last_raw_movement := last_raw_movement d;
     last_scaled_value := last_scaled_value d;
     enabled := enabled d |}.

(** ** The intensity mapper *)

Section Mapper.

Variable log : double -> double.
Variable cfg : settings.

Local Open Scope prog_scope.

(** [sqrt((double)(dx * dx + dy * dy))]: the sum is computed in [int]. *)
Definition movement_of (dx dy : Z) : double :=
  PrimFloat.sqrt (double_of_int (int_add (int_mul dx dx) (int_mul dy dy))).

(** [intensity < 1 ? 1 : (intensity > NUM_INTENSITY_LEVELS ? NUM_INTENSITY_LEVELS : intensity)] *)
Definition clamp_intensity (intensity : Z) : Z :=
  if intensity <? 1 then 1
  else if intensity >? NUM_INTENSITY_LEVELS then NUM_INTENSITY_LEVELS
  else intensity.

(** [log(movement) / log(log_base)] *)
Definition scaled_of (movement : double) : double :=
  (log movement / log (log_base cfg))%float.

(** [1.0 + (scaled / max_scaled) * (NUM_INTENSITY_LEVELS - 1)] *)
Definition intensity_scaled_of (movement : double) : double :=
  let scaled := scaled_of movement in
  let max_scaled := (log (max_movement_threshold cfg) / log (log_base cfg))%float in
  (1 + (scaled / max_scaled) * double_of_int (NUM_INTENSITY_LEVELS - 1))%float.

Definition calculate_intensity (dx dy : Z) : M Z :=
  let movement := movement_of dx dy in
  modify (set_debug (record_raw_movement movement)) ;;
  if (movement <? min_movement_threshold cfg)%float then
    debug_printf (DebugBelowThreshold movement) ;;
    ret 1
  else if (max_movement_threshold cfg <? movement)%float then
    debug_printf (DebugAboveMax movement NUM_INTENSITY_LEVELS) ;;
    ret NUM_INTENSITY_LEVELS
  else
    let scaled := scaled_of movement in
    modify (set_debug (record_scaled_value scaled)) ;;
    let intensity_scaled := intensity_scaled_of movement in
    let intensity := int_of_double (intensity_scaled + 0.5)%float in
    let intensity := clamp_intensity intensity in
    debug_printf (DebugIntensity movement scaled intensity) ;;
    modify (set_debug (count_intensity intensity)) ;;
    ret intensity.

(** [calculate_intensity] in two parts, for a signal handler that interrupts
    it.  [calculate_intensity_begin] runs to the [return] of a threshold
    test ([inr], with the value returned) or through
    [debug.intensity_counts[intensity]++] ([inl], with the intensity:
    [debug.total_movements++] is still to come); [calculate_intensity_end]
    is the rest. *)
Definition calculate_intensity_begin (dx dy : Z) : M (Z + Z) :=
  let movement := movement_of dx dy in
  modify (set_debug (record_raw_movement movement)) ;;
  if (movement <? min_movement_threshold cfg)%float then
    debug_printf (DebugBelowThreshold movement) ;;
    ret (inr 1)
  else if (max_movement_threshold cfg <? movement)%float then
    debug_printf (DebugAboveMax movement NUM_INTENSITY_LEVELS) ;;
    ret (inr NUM_INTENSITY_LEVELS)
  else
    let scaled := scaled_of movement in
    modify (set_debug (record_scaled_value scaled)) ;;
    let intensity_scaled := intensity_scaled_of movement in
    let intensity := int_of_double (intensity_scaled + 0.5)%float in
    let intensity := clamp_intensity intensity in
    debug_printf (DebugIntensity movement scaled intensity) ;;
    modify (set_debug (count_level intensity)) ;;
    ret (inl intensity).

Definition calculate_intensity_end (intensity : Z) : M Z :=
  modify (set_debug count_total) ;;
  ret intensity.

End Mapper.

(** The value [calculate_intensity] returns, without the bookkeeping. *)
Definition intensity_of (log : double -> double) (cfg : settings) (dx dy : Z) : Z :=
  let movement := movement_of dx dy in
  if (movement <? min_movement_threshold cfg)%float then 1
  else if (max_movement_threshold cfg <? movement)%float then NUM_INTENSITY_LEVELS
  else clamp_intensity (int_of_double (intensity_scaled_of log cfg movement + 0.5)%float).

(** ** Sample values of the logarithm

    Natural logarithms, rounded to nearest, at the arguments used by the
    concrete examples below. *)
Definition ln_table : list (double * double) :=
  [ (2, 0x1.62e42fefa39efp-1);
    (10, 0x1.26bb1bbb55516p+1);
    (100, 0x1.26bb1bbb55516p+2);
    (4096, 0x1.0a2b23f3bab73p+3);
    (65536, 0x1.62e42fefa39efp+3) ]%float.

Fixpoint lookup_ln (t : list (double * double)) (x : double) : double :=
  match t with
  | [] => nan
  | (a, b) :: t' => if (a =? x)%float then b else lookup_ln t' x
  end.

(** A logarithm known only at the table's arguments, for the concrete
    examples. *)
Definition log_sample : double -> double := lookup_ln ln_table.

(** ** Playback *)

Section Playback.

Variable cfg : settings.

Local Open Scope prog_scope.

(** [system("aplay <dir>/<intensity>.wav 2>/dev/null")]: the command's
    error output goes to /dev/null, so the call adds nothing to what the
    program prints; [status] is the value [system] returns. *)
Definition system (intensity : Z) (status : Z) : M Z := ret status.

Definition play_sound_file (intensity : Z) (status : Z) : M unit :=
  debug_printf (DebugPlaying intensity) ;;
  if negb (no_sound cfg) then
    debug_printf (DebugExecuting intensity) ;;
    system intensity status ;;          (* the returned status is dropped *)
    ret tt
  else
    debug_printf (DebugPlaybackDisabled intensity).

End Playback.

(** ** The channel: deposit by the monitor, take by the player *)

Record input_event := {
  ev_type : Z;
  ev_code : Z;
  ev_value : Z                    (* __s32 *)
}.

Section Channel.

Variable log : double -> double.
Variable cfg : settings.

Local Open Scope prog_scope.

(** [monitor_device], the critical section after [calculate_intensity]. *)
Definition deposit (new_intensity : Z) : M unit :=
  playing <- gets is_playing ;;
  current <- gets current_intensity ;;
  if negb playing || negb (new_intensity =? current) then
    modify (set_current_intensity new_intensity) ;;
    pthread_cond_signal
  else
    ret tt.

(** The arguments [monitor_device] passes to [calculate_intensity] for an
    event, if it passes any. *)
Definition motion_sample (ev : input_event) : option (Z * Z) :=
  if ev_type ev =? EV_REL then
    if (ev_code ev =? REL_X) || (ev_code ev =? REL_Y) then
      let dx := if ev_code ev =? REL_X then ev_value ev else 0 in
      let dy := if ev_code ev =? REL_Y then ev_value ev else 0 in
      Some (dx, dy)
    else None
  else None.

(** [monitor_device], the loop body after a complete [read]. *)
Definition monitor_event (ev : input_event) : M unit :=
  match motion_sample ev with
  | Some (dx, dy) =>
      new_intensity <- calculate_intensity log cfg dx dy ;;
      deposit new_intensity
  | None => ret tt
  end.

(** Where the player thread is. *)
Inductive player_pc :=
| PlayerLoop                          (* at [while (running)], mutex free *)
| PlayerWaiting                       (* blocked in [pthread_cond_wait] *)
| PlayerPlaying (intensity_to_play : Z) (* in [play_sound_file], mutex free;
                                         with the sound on, inside [system] *)
| PlayerReturned                      (* [return NULL] *)
| PlayerCancelled.                    (* ended by [pthread_cancel] *)

(** [sound_player_thread] with the mutex held: the inner [while], the
    [if (!running)] and the take. *)
Definition player_locked : M player_pc :=
  current <- gets current_intensity ;;
  run <- gets running ;;
  if (current =? 0) && run then
    ret PlayerWaiting
  else if negb run then
    ret PlayerReturned
  else
    modify (set_current_intensity 0) ;;
    modify (set_is_playing true) ;;
    ret (PlayerPlaying current).

(** One pass from the outer [while (running)] to the next blocking call. *)
Definition player_loop_head : M player_pc :=
  run <- gets running ;;
  if run then player_locked else ret PlayerReturned.

(** [play_sound_file(intensity_to_play)] and the critical section after it. *)
Definition player_plays (intensity_to_play status : Z) : M player_pc :=
  play_sound_file cfg intensity_to_play status ;;
  modify (set_is_playing false) ;;
  ret PlayerLoop.

Definition print_debug_stats : M unit :=
  fun g =>
    if enabled (debug g) then
      printf (DebugStatistics (intensity_counts (debug g)) (total_movements (debug g))) g
    else (tt, g).

(** [handle_signal(SIGINT)] up to its [exit(0)]; returns the exit status. *)
Definition handle_signal : M Z :=
  printf ReceivedSigint ;;
  modify (set_running false) ;;
  pthread_cond_broadcast ;;
  print_debug_stats ;;
  ret 0.

(** The statement of [handle_signal] that comes next. *)
Inductive handler_pc :=
| HandlerPrintf                       (* [printf("\nReceived SIGINT, ...")] *)
| HandlerClearRunning                 (* [running = false] *)
| HandlerBroadcast                    (* [pthread_cond_broadcast(&cond)] *)
| HandlerStats                        (* [print_debug_stats()] *)
| HandlerExit.                        (* [exit(0)] *)

Definition handler_statement (h : handler_pc) : M unit :=
  match h with
  | HandlerPrintf => printf ReceivedSigint
  | HandlerClearRunning => modify (set_running false)
  | HandlerBroadcast => pthread_cond_broadcast
  | HandlerStats => print_debug_stats
  | HandlerExit => ret tt
  end.

Definition handler_next (h : handler_pc) : handler_pc :=
  match h with
  | HandlerPrintf => HandlerClearRunning
  | HandlerClearRunning => HandlerBroadcast
  | HandlerBroadcast => HandlerStats
  | HandlerStats => HandlerExit
  | HandlerExit => HandlerExit
  end.

(** ** The process: two threads and a signal handler *)

(** Where the main thread is. *)
Inductive monitor_pc :=
| MonitorReading                      (* in the [while (running)] loop, in [read] *)
| MonitorJoining                      (* after [pthread_cancel], in [pthread_join] *)
| MonitorReturned
| MonitorCounted (intensity : Z)      (* in [calculate_intensity], between the two
                                         increments *)
| MonitorComputed (new_intensity : Z) (* [calculate_intensity] has returned; before
                                         [pthread_mutex_lock] *)
| MonitorHandling (next : handler_pc). (* in [handle_signal], which never returns *)

Record process := {
  mem : globals;
  player : player_pc;
  monitor : monitor_pc;
  cancel_requested : bool;
  exit_status : option Z              (* [Some] once the process has exited *)
}.

(** The process once [monitor_device] has created the player thread and
    opened the device. *)
Definition process_init (debug_enabled : bool) : process :=
  {| mem := globals_init debug_enabled;
     player := PlayerLoop;
     monitor := MonitorReading;
     cancel_requested := false;
     exit_status := None |}.

(** What the scheduler and the environment decide. *)
Inductive action :=
| ReadEvent (ev : input_event)  (* [read] returns a whole event and the loop
                                   body runs to the next [read] with no
                                   signal in between: [ReadReturns] and the
                                   [MonitorRuns] that follow, in one *)
| ReadFails                     (* [read] returns less, or the loop test fails *)
| PlayerRuns                    (* the player runs from the loop head, or wakes
                                   up in [pthread_cond_wait] (a wake-up may be
                                   spurious), up to its next blocking call *)
| PlaybackReturns (status : Z)  (* [play_sound_file] finishes; [status] is what
                                   [system] returned *)
| PlayerCancels                 (* a pending cancellation is acted upon *)
| JoinReturns                   (* [pthread_join] returns; [main] returns 0 *)
| Sigint                        (* SIGINT is sent to the process: [handle_signal]
                                   is entered, unless the signal is ignored or
                                   the handler is already running *)
| ReadReturns (ev : input_event) (* as [ReadEvent], but the monitor stops inside
                                   [calculate_intensity] before
                                   [debug.total_movements++], or at its return *)
| MonitorRuns                   (* the monitor goes on: the second increment,
                                   then the critical section *)
| HandlerRuns.                  (* [handle_signal] executes its next statement *)

Definition with_mem (p : process) (g : globals) : process :=
  {| mem := g; player := player p; monitor := monitor p;
     cancel_requested := cancel_requested p; exit_status := exit_status p |}.

Definition with_player (p : process) (r : player_pc * globals) : process :=
  {| mem := snd r; player := fst r; monitor := monitor p;
     cancel_requested := cancel_requested p; exit_status := exit_status p |}.

Definition player_terminated (pc : player_pc) : bool :=
  match pc with
  | PlayerReturned | PlayerCancelled => true
  | _ => false
  end.

(** [pthread_cond_wait] and [system] are the cancellation points the player
    can be at. *)
Definition at_cancellation_point (pc : player_pc) : bool :=
  match pc with
  | PlayerWaiting => true
  | PlayerPlaying _ => negb (no_sound cfg)
  | _ => false
  end.

(** While the player is inside [system], SIGINT is set to SIG_IGN for the
    whole process. *)
Definition sigint_ignored (pc : player_pc) : bool :=
  match pc with
  | PlayerPlaying _ => negb (no_sound cfg)
  | _ => false
  end.

Definition with_monitor (p : process) (pc : monitor_pc) (g : globals) : process :=
  {| mem := g; player := player p; monitor := pc;
     cancel_requested := cancel_requested p; exit_status := exit_status p |}.

Definition step_running (p : process) (a : action) : option process :=
  match a with
  | ReadEvent ev =>
      match monitor p with
      | MonitorReading =>
          if running (mem p) then Some (with_mem p (snd (monitor_event ev (mem p))))
          else None
      | _ => None
      end
  | ReadFails =>
      match monitor p with
      | MonitorReading =>
          let g := if running (mem p)
                   then snd (printf ErrorReadingInputEvent (mem p))
                   else mem p in
          Some {| mem := g; player := player p; monitor := MonitorJoining;
                  cancel_requested := true; exit_status := None |}
      | _ => None
      end
  | PlayerRuns =>
      match player p with
      | PlayerLoop => Some (with_player p (player_loop_head (mem p)))
      | PlayerWaiting => Some (with_player p (player_locked (mem p)))
      | _ => None
      end
  | PlaybackReturns status =>
      match player p with
      | PlayerPlaying intensity_to_play =>
          Some (with_player p (player_plays intensity_to_play status (mem p)))
      | _ => None
      end
  | PlayerCancels =>
      if cancel_requested p && at_cancellation_point (player p) then
        Some (with_player p (PlayerCancelled, mem p))
      else None
  | JoinReturns =>
      match monitor p with
      | MonitorJoining =>
          if player_terminated (player p) then
            Some {| mem := mem p; player := player p; monitor := MonitorReturned;
                    cancel_requested := cancel_requested p; exit_status := Some 0 |}
          else None
      | _ => None
      end
  | Sigint =>
      if sigint_ignored (player p) then Some p
      else
        match monitor p with
        | MonitorHandling _ => Some p
        | MonitorReturned => None
        | _ => Some (with_monitor p (MonitorHandling HandlerPrintf) (mem p))
        end
  | ReadReturns ev =>
      match monitor p with
      | MonitorReading =>
          if running (mem p) then
            match motion_sample ev with
            | Some (dx, dy) =>
                let (r, g) := calculate_intensity_begin log cfg dx dy (mem p) in
                Some (with_monitor p
                        match r with
                        | inl intensity => MonitorCounted intensity
                        | inr new_intensity => MonitorComputed new_intensity
                        end g)
            | None => Some p
            end
          else None
      | _ => None
      end
  | MonitorRuns =>
      match monitor p with
      | MonitorCounted intensity =>
          let (new_intensity, g) := calculate_intensity_end intensity (mem p) in
          Some (with_monitor p (MonitorComputed new_intensity) g)
      | MonitorComputed new_intensity =>
          Some (with_monitor p MonitorReading (snd (deposit new_intensity (mem p))))
      | _ => None
      end
  | HandlerRuns =>
      match monitor p with
      | MonitorHandling HandlerExit =>
          Some {| mem := mem p; player := player p; monitor := monitor p;
                  cancel_requested := cancel_requested p; exit_status := Some 0 |}
      | MonitorHandling h =>
          Some (with_monitor p (MonitorHandling (handler_next h))
                  (snd (handler_statement h (mem p))))
      | _ => None
      end
  end.

(** Nothing runs once the process has exited. *)
Definition step (p : process) (a : action) : option process :=
  match exit_status p with
  | Some _ => None
  | None => step_running p a
  end.

Fixpoint run (actions : list action) (p : process) : option process :=
  match actions with
  | [] => Some p
  | a :: rest =>
      match step p a with
      | Some p' => run rest p'
      | None => None
      end
  end.

Inductive reachable (debug_enabled : bool) : process -> Prop :=
| reachable_init : reachable debug_enabled (process_init debug_enabled)
| reachable_step p a p' :
    reachable debug_enabled p -> step p a = Some p' -> reachable debug_enabled p'.

End Channel.

(** ** Settings and checks used by the concrete examples *)

(** Thresholds as set by [-m 1 -M 65536 -b 2]. *)
Definition wide_settings : settings :=
  {| min_movement_threshold := 1%float;
     max_movement_threshold := 65536%float;
     log_base := 2%float;
     no_sound := false |}.

(** The square root of the exact square of [v >= 0] is [(double) v]. *)
Definition single_axis_ok (v : Z) : bool :=
  Leibniz.eqb (PrimFloat.sqrt (double_of_int (v * v))) (double_of_int v).

Fixpoint single_axis_from (fuel : nat) (v : Z) : bool :=
  match fuel with
  | O => true
  | S fuel' => single_axis_ok v && single_axis_from fuel' (v + 1)
  end.

(** ** Predicates used in the statements *)

(** [g'] differs from [g] at most in [debug.last_raw_movement] and
    [debug.last_scaled_value]. *)
Definition differ_in_last_values_only (g g' : globals) : Prop :=
  exists raw scaled,
    g' = set_debug (fun d => record_scaled_value scaled (record_raw_movement raw d)) g.

(** The program's output tells a playback that ended with [status] from one
    that succeeded. *)
Definition failure_reported (cfg : settings) (intensity status : Z) (g : globals) : Prop :=
  printed (snd (player_plays cfg intensity status g))
  <> printed (snd (player_plays cfg intensity 0 g)).

(** The pending slot is empty or holds a level. *)
Definition pending_ok (v : Z) : Prop := v = 0 \/ 1 <= v <= NUM_INTENSITY_LEVELS.

(** The intensity being played is a level. *)
Definition playing_ok (pc : player_pc) : Prop :=
  match pc with
  | PlayerPlaying intensity_to_play => 1 <= intensity_to_play <= NUM_INTENSITY_LEVELS
  | _ => True
  end.

(** The level the monitor holds between [calculate_intensity] and the
    deposit is a level. *)
Definition computing_ok (pc : monitor_pc) : Prop :=
  match pc with
  | MonitorCounted intensity | MonitorComputed intensity =>
      1 <= intensity <= NUM_INTENSITY_LEVELS
  | _ => True
  end.

(** [running] has been cleared by the handler. *)
Definition running_cleared (pc : monitor_pc) : bool :=
  match pc with
  | MonitorHandling HandlerBroadcast
  | MonitorHandling HandlerStats
  | MonitorHandling HandlerExit => true
  | _ => false
  end.

Definition channel_inv (p : process) : Prop :=
  pending_ok (current_intensity (mem p))
  /\ playing_ok (player p)
  /\ computing_ok (monitor p).

(** Events and processes of the concrete examples. *)
Definition rel_x (value : Z) : input_event :=
  {| ev_type := EV_REL; ev_code := REL_X; ev_value := value |}.

(** The process after the event [REL_X 200] has been read (level 10 is
    pending), and after the player has then taken it. *)
Definition process_pending : process :=
  Eval vm_compute in
    match run log_sample default_settings [ReadEvent (rel_x 200)] (process_init false) with
    | Some p => p
    | None => process_init false
    end.

Definition process_playing : process :=
  Eval vm_compute in
    match run log_sample default_settings [PlayerRuns] process_pending with
    | Some p => p
    | None => process_init false
    end.

(** ** Predicates used by the further properties *)

Definition long_sum (l : list Z) : Z := fold_right Z.add 0 l.

(** The histogram has its 11 slots, slot 0 is unused, and the slots add up
    to the total (in [long] arithmetic). *)
Definition histogram_ok (d : debug_stats) : Prop :=
  length (intensity_counts d) = 11%nat
  /\ nth 0 (intensity_counts d) 0 = 0
  /\ wrap_long (long_sum (intensity_counts d)) = total_movements d.

(** [is_playing] agrees with where the player thread is. *)
Definition busy_flag_ok (p : process) : Prop :=
  match player p with
  | PlayerLoop | PlayerWaiting => is_playing (mem p) = false
  | PlayerPlaying _ => is_playing (mem p) = true
  | PlayerReturned | PlayerCancelled => True
  end.

(** Between [debug.intensity_counts[intensity]++] and
    [debug.total_movements++] the slots add up to one more than the total. *)
Definition histogram_ahead (d : debug_stats) : Prop :=
  length (intensity_counts d) = 11%nat
  /\ nth 0 (intensity_counts d) 0 = 0
  /\ wrap_long (long_sum (intensity_counts d)) = wrap_long (total_movements d + 1).

(** The statistics, by where the main thread is: one ahead between the two
    increments; either way in the handler, which may have interrupted
    [calculate_intensity] there. *)
Definition histogram_inv (p : process) : Prop :=
  match monitor p with
  | MonitorCounted _ => histogram_ahead (debug (mem p))
  | MonitorHandling _ =>
      histogram_ok (debug (mem p)) \/ histogram_ahead (debug (mem p))
  | _ => histogram_ok (debug (mem p))
  end.

(** The handler has executed its [pthread_cond_broadcast]. *)
Definition broadcast_made (pc : monitor_pc) : bool :=
  match pc with
  | MonitorHandling HandlerStats
  | MonitorHandling HandlerExit => true
  | _ => false
  end.

(** The calls made on [cond]: no broadcast before the handler's, which is
    then the last call. *)
Definition broadcast_inv (p : process) : Prop :=
  if broadcast_made (monitor p) then
    exists calls,
      cond_calls (mem p) = calls ++ [CondBroadcast] /\ ~ In CondBroadcast calls
  else ~ In CondBroadcast (cond_calls (mem p)).

(** The actions of the player thread. *)
Definition player_action (a : action) : bool :=
  match a with
  | PlayerRuns | PlaybackReturns _ | PlayerCancels => true
  | _ => false
  end.

(** SIGINT in the initial state; the handler has printed its message and
    cleared [running]; the player, at its loop head, then runs. *)
Definition process_returned : process :=
  Eval vm_compute in
    match run log_sample default_settings [Sigint; HandlerRuns; HandlerRuns; PlayerRuns]
            (process_init false) with
    | Some p => p
    | None => process_init false
    end.

(** The event [REL_X 10] is read and SIGINT arrives between the two
    increments of [calculate_intensity]. *)
Definition process_interrupted : process :=
  Eval vm_compute in
    match run log_sample default_settings [ReadReturns (rel_x 10); Sigint]
            (process_init false) with
    | Some p => p
    | None => process_init false
    end.

(** SIGINT in the initial state; the handler has run through its
    [pthread_cond_broadcast]. *)
Definition process_stopping : process :=
  Eval vm_compute in
    match run log_sample default_settings [Sigint; HandlerRuns; HandlerRuns; HandlerRuns]
            (process_init false) with
    | Some p => p
    | None => process_init false
    end.

(** An event that is not relative motion: a key press ([EV_KEY] is 1). *)
Definition key_event : input_event :=
  {| ev_type := 1; ev_code := 272; ev_value := 1 |}.

(** The monitor has left its loop and waits in [pthread_join]; nothing has
    ended the process yet. *)
Definition joining (p : process) : Prop :=
  exit_status p = None
  /\ monitor p = MonitorJoining
  /\ cancel_requested p = true
  /\ running (mem p) = true.

(** From [p], some schedule of at most [n] actions ends the process by the
    return of [main], the player thread having ended. *)
Definition can_finish (log : double -> double) (cfg : settings) (n : nat) (p : process) : Prop :=
  exists actions p',
    (length actions <= n)%nat
    /\ run log cfg actions p = Some p'
    /\ exit_status p' = Some 0
    /\ monitor p' = MonitorReturned
    /\ player_terminated (player p') = true.

(** With the default thresholds, [(double) v] is not below the minimum and
    is above the maximum. *)
Definition saturates_ok (v : Z) : bool :=
  (negb (double_of_int v <? min_movement_threshold default_settings)
   && (max_movement_threshold default_settings <? double_of_int v))%float.

Fixpoint saturates_from (fuel : nat) (v : Z) : bool :=
  match fuel with
  | O => true
  | S fuel' => saturates_ok v && saturates_from fuel' (v + 1)
  end.

(** Thresholds that are not numbers, as [atof] returns for "nan". *)
Definition nan_settings : settings :=
  {| min_movement_threshold := nan;
     max_movement_threshold := nan;
     log_base := nan;
     no_sound := false |}.

(** ** Start-up: the sound directory, the device list and [main]

    The file system and the device directory are parameters: what [stat],
    [access], [readdir], [open] and the [EVIOCGNAME] ioctl answer.  [main]
    is modelled from the results of [getopt_long] on; libc's [atof] is a
    parameter. *)

Definition PATH_MAX : nat := 4096.           (* <linux/limits.h> *)
Definition DEVICE_PATH_MAX : nat := 300.
Definition NAME_MAX : nat := 255.            (* longest [d_name] *)
Definition DEV_INPUT_PATH : string := "/dev/input".
Definition EVENT_PREFIX : string := "event".
Definition DEFAULT_SOUND_DIR : string := "moans".

(** [snprintf(buffer, size, ...)]: the formatted text, cut to [size - 1]
    characters. *)
Definition snprintf (size : nat) (text : string) : string :=
  substring 0 (size - 1) text.

(** [%d] *)
Definition decimal (i : Z) : string := NilZero.string_of_int (Z.to_int i).

(** ["%s/%d.wav"] in [sound_path_buffer]. *)
Definition wav_path (dir_path : string) (i : Z) : string :=
  snprintf PATH_MAX (dir_path ++ "/" ++ decimal i ++ ".wav")%string.

Record filesystem := {
  fs_stat : string -> option bool;   (* [None]: [stat] fails; [Some d]: [d] is [S_ISDIR] *)
  fs_readable : string -> bool       (* [access(path, R_OK) == 0] *)
}.

(** The lines [validate_sound_directory] writes to [stderr]. *)
Inductive validate_error :=
| CannotAccessDirectory (dir_path : string)
| NotADirectory (dir_path : string)
| MissingSoundFile (path : string)
| MustContainWavFiles (count : Z).

(** The [for] loop, [iterations] passes from [i] on. *)
Fixpoint validate_loop (fs : filesystem) (dir_path : string) (iterations : nat) (i : Z)
    (missing_files : bool) (err : list validate_error) : bool * list validate_error :=
  match iterations with
  | O => (missing_files, err)
  | S rest =>
      let path := wav_path dir_path i in
      if fs_readable fs path then
        validate_loop fs dir_path rest (i + 1) missing_files err
      else
        validate_loop fs dir_path rest (i + 1) true (err ++ [MissingSoundFile path])
  end.

Definition validate_sound_directory (fs : filesystem) (dir_path : string)
  : bool * list validate_error :=
  match fs_stat fs dir_path with
  | None => (false, [CannotAccessDirectory dir_path])
  | Some false => (false, [NotADirectory dir_path])
  | Some true =>
      let (missing_files, err) :=
        validate_loop fs dir_path (Z.to_nat NUM_INTENSITY_LEVELS) 1 false [] in
      if missing_files then (false, err ++ [MustContainWavFiles NUM_INTENSITY_LEVELS])
      else (true, err)
  end.

(** The levels [1 .. NUM_INTENSITY_LEVELS]. *)
Definition levels : list Z := [1; 2; 3; 4; 5; 6; 7; 8; 9; 10].

Record device_dir := {
  dev_entries : option (list string);  (* the [d_name]s in [readdir] order; [None]: [opendir] fails *)
  dev_open : string -> bool;           (* [open(path, O_RDONLY) >= 0] *)
  dev_name : string -> option string   (* the name [EVIOCGNAME] gives; [None]: [ioctl] fails *)
}.

(** The lines [list_input_devices] prints. *)
Inductive list_line :=
| FailedToOpenDevInput
| AvailableInputDevices
| Rule
| DeviceLine (device_name device_path : string).

(** The body of the [readdir] loop for one entry. *)
Definition list_entry (d : device_dir) (d_name : string) : list list_line :=
  if prefix EVENT_PREFIX d_name then
    let device_path :=
      snprintf DEVICE_PATH_MAX (DEV_INPUT_PATH ++ "/" ++ d_name)%string in
    if dev_open d device_path then
      match dev_name d device_path with
      | Some device_name => [DeviceLine device_name device_path]
      | None => []
      end
    else []
  else [].

Fixpoint list_entries (d : device_dir) (entries : list string) : list list_line :=
  match entries with
  | [] => []
  | d_name :: rest => list_entry d d_name ++ list_entries d rest
  end.

Definition list_input_devices (d : device_dir) : list list_line :=
  match dev_entries d with
  | None => [FailedToOpenDevInput]
  | Some entries => AvailableInputDevices :: Rule :: list_entries d entries
  end.

(** What [getopt_long] returns, one constructor per [case] of [main]. *)
Inductive cli_option :=
| OptListDevices                      (* 'l' *)
| OptInput (optarg : string)          (* 'i' *)
| OptDebug                            (* 'd' *)
| OptHelp                             (* 'h' *)
| OptVersion                          (* 'v' *)
| OptMinThreshold (optarg : string)   (* 'm' *)
| OptMaxThreshold (optarg : string)   (* 'M' *)
| OptLogBase (optarg : string)        (* 'b' *)
| OptNoSound                          (* 'n' *)
| OptSoundDir (optarg : string)       (* 's' *)
| OptUnrecognised.                    (* anything else: [default] *)

(** The variables [main] sets from the options. *)
Record main_vars := {
  device_path : option string;        (* [NULL] is [None] *)
  list_requested : bool;
  debug_flag : bool;                  (* [debug.enabled] *)
  thresholds : settings;
  sound_directory : string
}.

Definition main_vars_init : main_vars :=
  {| device_path := None;
     list_requested := false;
     debug_flag := false;
     thresholds := default_settings;
     sound_directory := DEFAULT_SOUND_DIR |}.

(** What [main] prints. *)
Inductive main_line :=
| DebugModeEnabled
| SoundDisabledTestMode
| Usage
| Version
| DeviceList (lines : list list_line)
| ErrorInputDeviceRequired
| SoundDirectoryErrors (err : list validate_error)
| ErrorMinThreshold
| ErrorMaxThreshold
| ErrorLogBase
| Configuration (device : string) (vars : main_vars).

Inductive main_result :=
| MainReturns (status : Z)
| MainMonitors (device : string) (vars : main_vars).  (* [monitor_device(device_path)] *)

Section Main.

Variable atof : string -> double.
Variable fs : filesystem.
Variable devices : device_dir.

Definition set_thresholds (f : settings -> settings) (v : main_vars) : main_vars :=
  {| device_path := device_path v;
     list_requested := list_requested v;
     debug_flag := debug_flag v;
     thresholds := f (thresholds v);
     sound_directory := sound_directory v |}.

(** One [case] of the [switch]: the variables and lines after it, or the
    status [main] returns from inside the loop. *)
Definition main_option (opt : cli_option) (v : main_vars)
  : (Z + main_vars) * list main_line :=
  match opt with
  | OptListDevices =>
      (inr {| device_path := device_path v; list_requested := true;
              debug_flag := debug_flag v; thresholds := thresholds v;
              sound_directory := sound_directory v |}, [])
  | OptInput optarg =>
      (inr {| device_path := Some optarg; list_requested := list_requested v;
              debug_flag := debug_flag v; thresholds := thresholds v;
              sound_directory := sound_directory v |}, [])
  | OptDebug =>
      (inr {| device_path := device_path v; list_requested := list_requested v;
              debug_flag := true; thresholds := thresholds v;
              sound_directory := sound_directory v |}, [DebugModeEnabled])
  | OptHelp => (inl 0, [Usage])
  | OptVersion => (inl 0, [Version])
  | OptMinThreshold optarg =>
      (inr (set_thresholds
              (fun c => {| min_movement_threshold := atof optarg;
                           max_movement_threshold := max_movement_threshold c;
                           log_base := log_base c;
                           no_sound := no_sound c |}) v), [])
  | OptMaxThreshold optarg =>
      (inr (set_thresholds
              (fun c => {| min_movement_threshold := min_movement_threshold c;
                           max_movement_threshold := atof optarg;
                           log_base := log_base c;
                           no_sound := no_sound c |}) v), [])
  | OptLogBase optarg =>
      (inr (set_thresholds
              (fun c => {| min_movement_threshold := min_movement_threshold c;
                           max_movement_threshold := max_movement_threshold c;
                           log_base := atof optarg;
                           no_sound := no_sound c |}) v), [])
  | OptNoSound =>
      (inr (set_thresholds
              (fun c => {| min_movement_threshold := min_movement_threshold c;
                           max_movement_threshold := max_movement_threshold c;
                           log_base := log_base c;
                           no_sound := true |}) v), [SoundDisabledTestMode])
  | OptSoundDir optarg =>
      (inr {| device_path := device_path v; list_requested := list_requested v;
              debug_flag := debug_flag v; thresholds := thresholds v;
              sound_directory := optarg |}, [])
  | OptUnrecognised => (inl 1, [Usage])
  end.

(** The [while (getopt_long(...) != -1)] loop. *)
Fixpoint main_options (opts : list cli_option) (v : main_vars) (out : list main_line)
  : (Z + main_vars) * list main_line :=
  match opts with
  | [] => (inr v, out)
  | opt :: rest =>
      match main_option opt v with
      | (inl status, lines) => (inl status, out ++ lines)
      | (inr v', lines) => main_options rest v' (out ++ lines)
      end
  end.

(** [main] after the loop. *)
Definition main_checks (v : main_vars) (out : list main_line)
  : main_result * list main_line :=
  if list_requested v then
    (MainReturns 0, out ++ [DeviceList (list_input_devices devices)])
  else
    match device_path v with
    | None => (MainReturns 1, out ++ [ErrorInputDeviceRequired; Usage])
    | Some device =>
        let (valid, err) :=
          if no_sound (thresholds v) then (true, [])
          else validate_sound_directory fs (sound_directory v) in
        let out := match err with [] => out | _ => out ++ [SoundDirectoryErrors err] end in
        if negb valid then (MainReturns 1, out)
        else if (min_movement_threshold (thresholds v) <=? 0)%float then
          (MainReturns 1, out ++ [ErrorMinThreshold])
        else if (max_movement_threshold (thresholds v)
                 <=? min_movement_threshold (thresholds v))%float then
          (MainReturns 1, out ++ [ErrorMaxThreshold])
        else if (log_base (thresholds v) <=? 1)%float then
          (MainReturns 1, out ++ [ErrorLogBase])
        else
          (MainMonitors device v, out ++ [Configuration device v])
    end.

Definition main (opts : list cli_option) : main_result * list main_line :=
  match main_options opts main_vars_init [] with
  | (inl status, out) => (MainReturns status, out)
  | (inr v, out) => main_checks v out
  end.

End Main.

(** An option that makes [main] return from inside the option loop. *)
Definition returns_at_once (opt : cli_option) : bool :=
  match opt with
  | OptHelp | OptVersion | OptUnrecognised => true
  | _ => false
  end.

(** A sound directory with all its files, one without [7.wav], and a device
    directory, for the concrete examples. *)
Definition fs_complete : filesystem :=
  {| fs_stat := fun path => if (path =? "moans")%string then Some true else None;
     fs_readable := fun _ => true |}.

Definition fs_without_7 : filesystem :=
  {| fs_stat := fun path => if (path =? "moans")%string then Some true else None;
     fs_readable := fun path => negb (path =? "moans/7.wav")%string |}.

Definition devices_sample : device_dir :=
  {| dev_entries := Some ["."; "mice"; "event0"; "event1"; "eventx"]%string;
     dev_open := fun path => negb (path =? "/dev/input/event1")%string;
     dev_name := fun path =>
       if (path =? "/dev/input/event0")%string then Some "Mouse"%string else None |}.

(** [n] consecutive integers from [i] on. *)
Fixpoint zseq (i : Z) (n : nat) : list Z :=
  match n with
  | O => []
  | S n' => i :: zseq (i + 1) n'
  end.

Definition unreadable (fs : filesystem) (path : string) : bool :=
  negb (fs_readable fs path).

(** The path [list_input_devices] builds for an entry when nothing is cut. *)
Definition event_path (d_name : string) : string :=
  (DEV_INPUT_PATH ++ "/" ++ d_name)%string.

Definition proceeds (opt : cli_option) : bool := negb (returns_at_once opt).

(** The level left pending by a burst of events read one after the other,
    [current] being pending before: that of the last relative-motion event
    on X or Y, if there is one. *)
Definition pending_after (log : double -> double) (cfg : settings)
    (events : list input_event) (current : Z) : Z :=
  fold_left
    (fun pending ev =>
       match motion_sample ev with
       | Some (dx, dy) => intensity_of log cfg dx dy
       | None => pending
       end)
    events current.

(** [atof] at the arguments the examples use; 0 for text that is not a
    number. *)
Definition atof_sample (text : string) : double :=
  if (text =? "-5")%string then (-5)%float
  else if (text =? "nan")%string then nan
  else 0%float.

Definition rel_y (value : Z) : input_event :=
  {| ev_type := EV_REL; ev_code := REL_Y; ev_value := value |}.

(** * Properties *)

(** ** Tactics *)

(** Unfolds the monadic layer of a program down to pairs. *)
Ltac run_prog :=
  cbv beta delta [bind ret modify gets printf debug_printf pthread_cond_signal
                  pthread_cond_broadcast] in *;
  cbn [fst snd] in *.

(** ** The mapper *)

Section MapperFacts.

Variable log : double -> double.
Variable cfg : settings.

Lemma clamp_intensity_range (z : Z) : 1 <= clamp_intensity z <= 10.
Proof.
  unfold clamp_intensity, NUM_INTENSITY_LEVELS.
  destruct (z <? 1) eqn:Hlow; [lia|].
  destruct (z >? 10) eqn:Hhigh; [lia|].
  apply Z.ltb_ge in Hlow. rewrite Z.gtb_ltb in Hhigh. apply Z.ltb_ge in Hhigh. lia.
Qed.

Lemma intensity_of_range (dx dy : Z) : 1 <= intensity_of log cfg dx dy <= 10.
Proof.
  unfold intensity_of.
  destruct (_ <? _)%float; [lia|].
  destruct (_ <? _)%float; [unfold NUM_INTENSITY_LEVELS; lia|].
  apply clamp_intensity_range.
Qed.

(** The returned value is [intensity_of], whatever the globals are. *)
Lemma calculate_intensity_value (dx dy : Z) (g : globals) :
  fst (calculate_intensity log cfg dx dy g) = intensity_of log cfg dx dy.
Proof.
  unfold calculate_intensity, intensity_of. run_prog.
  destruct (_ <? _)%float.
  - cbn. destruct (enabled (debug g)); reflexivity.
  - destruct (_ <? _)%float; cbn; destruct (enabled (debug g)); reflexivity.
Qed.

(** The two early returns, in terms of the magnitude the code computes. *)
Lemma intensity_below_threshold (dx dy : Z) :
  (movement_of dx dy <? min_movement_threshold cfg)%float = true ->
  intensity_of log cfg dx dy = 1.
Proof. intros H. unfold intensity_of. rewrite H. reflexivity. Qed.

Lemma intensity_above_max (dx dy : Z) :
  (movement_of dx dy <? min_movement_threshold cfg)%float = false ->
  (max_movement_threshold cfg <? movement_of dx dy)%float = true ->
  intensity_of log cfg dx dy = NUM_INTENSITY_LEVELS.
Proof. intros H1 H2. unfold intensity_of. rewrite H1, H2. reflexivity. Qed.

(** What a call leaves in the globals: the channel is untouched; [debug]
    gets the raw movement and, on the scaling path, the scaled value and the
    two counter increments; a line is printed only when debugging is
    enabled. *)
Lemma calculate_intensity_frame (dx dy : Z) (g : globals) :
  let r := calculate_intensity log cfg dx dy g in
  let movement := movement_of dx dy in
  current_intensity (snd r) = current_intensity g
  /\ is_playing (snd r) = is_playing g
  /\ running (snd r) = running g
  /\ cond_calls (snd r) = cond_calls g
  /\ (debug (snd r) = record_raw_movement movement (debug g)
      \/ debug (snd r)
         = count_intensity (fst r)
             (record_scaled_value (scaled_of log cfg movement)
                (record_raw_movement movement (debug g))))
  /\ (enabled (debug g) = false -> printed (snd r) = printed g)
  /\ (enabled (debug g) = true -> exists m, printed (snd r) = printed g ++ [m]).
Proof.
  unfold calculate_intensity. run_prog.
  destruct (_ <? _)%float; [|destruct (_ <? _)%float];
    cbn; destruct (enabled (debug g)) eqn:He; cbn; rewrite ?He;
    repeat split; auto; try discriminate; intros _; eexists; reflexivity.
Qed.

End MapperFacts.

(** The mapper reads [log] at three arguments only. *)
Lemma intensity_of_ext (log1 log2 : double -> double) (cfg : settings) (dx dy : Z) :
  log1 (movement_of dx dy) = log2 (movement_of dx dy) ->
  log1 (log_base cfg) = log2 (log_base cfg) ->
  log1 (max_movement_threshold cfg) = log2 (max_movement_threshold cfg) ->
  intensity_of log1 cfg dx dy = intensity_of log2 cfg dx dy.
Proof.
  intros Hm Hb Hx. unfold intensity_of, intensity_scaled_of, scaled_of.
  rewrite Hm, Hb, Hx. reflexivity.
Qed.

(** ** No overflow for small deltas *)

Lemma wrap_int_small (z : Z) : INT_MIN <= z <= INT_MAX -> wrap_int z = z.
Proof.
  unfold INT_MIN, INT_MAX, wrap_int. intros H.
  rewrite Z.mod_small by lia. lia.
Qed.

(** For deltas of at most 32767 in absolute value the [int] sum is the exact
    sum of squares. *)
Lemma sum_of_squares_exact (dx dy : Z) :
  Z.abs dx <= 32767 -> Z.abs dy <= 32767 ->
  int_add (int_mul dx dx) (int_mul dy dy) = dx * dx + dy * dy.
Proof.
  intros Hx Hy. unfold int_add, int_mul.
  assert (0 <= dx * dx <= 32767 * 32767) by nia.
  assert (0 <= dy * dy <= 32767 * 32767) by nia.
  rewrite (wrap_int_small (dx * dx)) by (unfold INT_MIN, INT_MAX; lia).
  rewrite (wrap_int_small (dy * dy)) by (unfold INT_MIN, INT_MAX; lia).
  apply wrap_int_small. unfold INT_MIN, INT_MAX. lia.
Qed.

(** ** Single-axis deltas *)

(** Checked by evaluation for every delta from [v] up. *)
Lemma single_axis_from_sound (fuel : nat) :
  forall v, single_axis_from fuel v = true ->
  forall z, v <= z < v + Z.of_nat fuel -> single_axis_ok z = true.
Proof.
  induction fuel as [|fuel IH]; intros v H z Hz.
  - cbn in Hz. lia.
  - cbn [single_axis_from] in H. apply andb_prop in H. destruct H as [Hv Hrest].
    destruct (Z.eq_dec z v) as [->|Hne]; [exact Hv|].
    apply (IH (v + 1) Hrest). lia.
Qed.

(** Below 46341 the square of a single delta stays within [int]. *)
Lemma single_square_exact (v : Z) :
  Z.abs v <= 46340 ->
  int_add (int_mul v v) (int_mul 0 0) = Z.abs v * Z.abs v
  /\ int_add (int_mul 0 0) (int_mul v v) = Z.abs v * Z.abs v.
Proof.
  intros Hv. unfold int_add, int_mul.
  assert (Hsq : v * v = Z.abs v * Z.abs v) by lia.
  assert (0 <= Z.abs v * Z.abs v <= 46340 * 46340) by nia.
  rewrite Hsq. change (0 * 0) with 0. change (wrap_int 0) with 0.
  rewrite (wrap_int_small (Z.abs v * Z.abs v)) by (unfold INT_MIN, INT_MAX; lia).
  rewrite Z.add_0_r, Z.add_0_l.
  split; apply wrap_int_small; unfold INT_MIN, INT_MAX; lia.
Qed.

Lemma single_axis_checked : single_axis_from (Z.to_nat 46341) 0 = true.
Proof. vm_compute. reflexivity. Qed.

(** A delta of at most 46340 in absolute value on one axis, the other being
    0, gives exactly its absolute value as magnitude. *)
Lemma movement_single_axis (v : Z) :
  Z.abs v <= 46340 ->
  movement_of v 0 = double_of_int (Z.abs v)
  /\ movement_of 0 v = double_of_int (Z.abs v).
Proof.
  intros Hv.
  assert (Hok : single_axis_ok (Z.abs v) = true).
  { apply (single_axis_from_sound _ _ single_axis_checked). rewrite Z2Nat.id; lia. }
  apply Leibniz.eqb_spec in Hok.
  destruct (single_square_exact v Hv) as [Hx Hy].
  unfold movement_of. rewrite Hx, Hy. split; exact Hok.
Qed.

(** Every sample handed to the mapper has a zero component, and the other
    one is the event's value. *)
Lemma motion_sample_single_axis (ev : input_event) (dx dy : Z) :
  motion_sample ev = Some (dx, dy) ->
  (ev_code ev = REL_X /\ dx = ev_value ev /\ dy = 0)
  \/ (ev_code ev = REL_Y /\ dx = 0 /\ dy = ev_value ev).
Proof.
  unfold motion_sample, REL_X, REL_Y.
  destruct (ev_type ev =? EV_REL); [|discriminate].
  destruct (ev_code ev =? 0) eqn:Hx; destruct (ev_code ev =? 1) eqn:Hy;
    cbn; intros H; inversion H; subst.
  - apply Z.eqb_eq in Hx, Hy. lia.
  - left. apply Z.eqb_eq in Hx. auto.
  - right. apply Z.eqb_eq in Hy. auto.
Qed.

(** ** Claims about the mapper *)

(** C2. For every pair of [int] deltas and every setting of the thresholds and
    of the log base (valid or not), [calculate_intensity] returns a level
    between 1 and 10.  The result is an [int], so no NaN leaves the
    function; the statement covers the inputs for which [movement] is a NaN
    (see [movement_nan]) and those whose magnitude equals a threshold. *)
Theorem calculate_intensity_in_range
    (log : double -> double) (cfg : settings) (dx dy : Z) (g : globals) :
  1 <= fst (calculate_intensity log cfg dx dy g) <= NUM_INTENSITY_LEVELS.
Proof.
  unfold calculate_intensity, NUM_INTENSITY_LEVELS. run_prog.
  destruct (_ <? _)%float.
  - (* below the minimum threshold *)
    cbn. destruct (enabled (debug g)); cbn; lia.
  - destruct (_ <? _)%float.
    + (* above the maximum threshold *)
      cbn. destruct (enabled (debug g)); cbn; lia.
    + (* scaling, then the clamp *)
      cbn. destruct (enabled (debug g)); cbn; apply clamp_intensity_range.
Qed.

(** A delta whose square leaves the range of [int] can make [movement] a NaN. *)
Example movement_nan :
  int_mul 46341 46341 = -2147479015
  /\ PrimFloat.is_nan (movement_of 46341 0) = true.
Proof. split; reflexivity. Qed.

(** C4, at the input [dx = 65536], [dy = 0] with the default thresholds: the
    Euclidean norm is 65536, above the maximum threshold 100, yet
    [dx * dx] wraps to 0 in [int], the computed magnitude is 0 and the
    function returns 1 through the below-threshold return, not 10. *)
Theorem large_delta_returns_lowest_level (log : double -> double) (g : globals) :
  int_mul 65536 65536 = 0
  /\ movement_of 65536 0 = 0%float
  /\ fst (calculate_intensity log default_settings 65536 0 g) = 1.
Proof.
  split; [reflexivity|]. split; [reflexivity|].
  rewrite calculate_intensity_value.
  apply intensity_below_threshold. reflexivity.
Qed.

(** C5, with the accepted settings min 1, max 65536, base 2, and a [log] that
    is correctly rounded at 2, 4096 and 65536: the deltas 4096 and 65536
    have Euclidean norms 4096 <= 65536, both within the thresholds, but the
    levels are 8 and then 1, since [65536 * 65536] wraps to 0 in [int]. *)
Theorem wrapped_delta_breaks_monotonicity (log : double -> double) (g : globals) :
  log 2%float = 0x1.62e42fefa39efp-1%float ->
  log 4096%float = 0x1.0a2b23f3bab73p+3%float ->
  log 65536%float = 0x1.62e42fefa39efp+3%float ->
  settings_accepted wide_settings = true
  /\ fst (calculate_intensity log wide_settings 4096 0 g) = 8
  /\ fst (calculate_intensity log wide_settings 65536 0 g) = 1.
Proof.
  intros H2 H4096 H65536. split; [reflexivity|]. split.
  - rewrite calculate_intensity_value.
    rewrite (intensity_of_ext log log_sample).
    + reflexivity.
    + change (movement_of 4096 0) with 4096%float. rewrite H4096. reflexivity.
    + cbn [log_base wide_settings]. rewrite H2. reflexivity.
    + cbn [max_movement_threshold wide_settings]. rewrite H65536. reflexivity.
  - rewrite calculate_intensity_value.
    apply intensity_below_threshold. reflexivity.
Qed.

Lemma wrapped_delta_breaks_monotonicity_witness :
  settings_accepted wide_settings = true
  /\ fst (calculate_intensity log_sample wide_settings 4096 0 (globals_init false)) = 8
  /\ fst (calculate_intensity log_sample wide_settings 65536 0 (globals_init false)) = 1.
Proof.
  apply (wrapped_delta_breaks_monotonicity log_sample (globals_init false));
    reflexivity.
Defined.

(** C6. With the default settings (min 1, max 100, base 2) and a [log] that is
    correctly rounded at 2, 10 and 100, the deltas (6, 8) have magnitude
    exactly 10, the scaled intensity is exactly 5.5, which plus 0.5 is
    truncated to 6, and the level returned is 6. *)
Theorem calculate_intensity_6_8 (log : double -> double) (g : globals) :
  log 2%float = 0x1.62e42fefa39efp-1%float ->
  log 10%float = 0x1.26bb1bbb55516p+1%float ->
  log 100%float = 0x1.26bb1bbb55516p+2%float ->
  movement_of 6 8 = 10%float
  /\ intensity_scaled_of log default_settings 10%float = 5.5%float
  /\ int_of_double (5.5 + 0.5)%float = 6
  /\ fst (calculate_intensity log default_settings 6 8 g) = 6.
Proof.
  intros H2 H10 H100.
  split; [reflexivity|]. split; [|split; [reflexivity|]].
  - unfold intensity_scaled_of, scaled_of.
    cbn [log_base max_movement_threshold default_settings].
    rewrite H2, H10, H100. reflexivity.
  - rewrite calculate_intensity_value.
    rewrite (intensity_of_ext log log_sample).
    + reflexivity.
    + change (movement_of 6 8) with 10%float. rewrite H10. reflexivity.
    + cbn [log_base default_settings]. rewrite H2. reflexivity.
    + cbn [max_movement_threshold default_settings]. rewrite H100. reflexivity.
Qed.

Lemma calculate_intensity_6_8_witness :
  movement_of 6 8 = 10%float
  /\ intensity_scaled_of log_sample default_settings 10%float = 5.5%float
  /\ int_of_double (5.5 + 0.5)%float = 6
  /\ fst (calculate_intensity log_sample default_settings 6 8 (globals_init false)) = 6.
Proof.
  apply (calculate_intensity_6_8 log_sample (globals_init false)); reflexivity.
Defined.

(** C10, at the event [EV_REL / REL_X] with value 65536: the sample passed to
    the mapper is (65536, 0), one axis only, but the magnitude computed for
    it is 0, not 65536, because [dx * dx] wraps in [int].  For deltas of at
    most 46340 in absolute value the magnitude is the absolute value
    ([motion_sample_single_axis], [movement_single_axis]). *)
Theorem single_axis_magnitude_wraps :
  motion_sample (rel_x 65536) = Some (65536, 0)
  /\ movement_of 65536 0 = 0%float
  /\ double_of_int (Z.abs 65536) = 65536%float.
Proof. repeat split. Qed.

(** C7 as stated fails: with the default settings, [calculate_intensity(6, 8)]
    also increments [debug.intensity_counts[6]] and [debug.total_movements]. *)
Lemma calculate_intensity_counts_too :
  ~ differ_in_last_values_only
      (globals_init false)
      (snd (calculate_intensity log_sample default_settings 6 8 (globals_init false))).
Proof.
  intros [raw [scaled H]].
  apply (f_equal (fun g => total_movements (debug g))) in H.
  vm_compute in H. discriminate H.
Qed.

(** C7, amended.  The level returned depends on [dx], [dy] and the settings
    only: any two calls, from whatever globals, return the same level, in
    particular two calls in a row.  The call leaves [current_intensity],
    [is_playing], [running] and the condition variable as they were.  In
    [debug] it records the raw movement and nothing else when it returns
    through a threshold test; when it takes the scaling path it records the
    raw movement and the scaled value and increments the counter of the
    level it returns and the total.  It prints nothing when debugging is
    disabled and, when it is enabled, the one debug line of its path. *)
Theorem calculate_intensity_deterministic_and_confined
    (log : double -> double) (cfg : settings) (dx dy : Z) (g g2 : globals) :
  let r := calculate_intensity log cfg dx dy g in
  let movement := movement_of dx dy in
  let below := (movement <? min_movement_threshold cfg)%float in
  let above := (max_movement_threshold cfg <? movement)%float in
  fst r = fst (calculate_intensity log cfg dx dy g2)
  /\ fst r = fst (calculate_intensity log cfg dx dy (snd r))
  /\ current_intensity (snd r) = current_intensity g
  /\ is_playing (snd r) = is_playing g
  /\ running (snd r) = running g
  /\ cond_calls (snd r) = cond_calls g
  /\ debug (snd r)
     = (if below || above then record_raw_movement movement (debug g)
        else count_intensity (fst r)
               (record_scaled_value (scaled_of log cfg movement)
                  (record_raw_movement movement (debug g))))
  /\ (enabled (debug g) = false -> printed (snd r) = printed g)
  /\ (enabled (debug g) = true ->
      printed (snd r)
      = printed g
        ++ [if below then DebugBelowThreshold movement
            else if above then DebugAboveMax movement NUM_INTENSITY_LEVELS
            else DebugIntensity movement (scaled_of log cfg movement) (fst r)]).
Proof.
  intros r movement below above. subst r movement below above.
  split; [rewrite !calculate_intensity_value; reflexivity|].
  split; [rewrite !calculate_intensity_value; reflexivity|].
  unfold calculate_intensity. run_prog.
  destruct (_ <? _)%float; [|destruct (_ <? _)%float];
    cbn; destruct (enabled (debug g)); cbn; repeat split; discriminate.
Qed.

(** ** The channel *)

(** C1. A deposit of [v]: when the player is not busy or [v] differs from the
    pending value, the pending slot becomes [v] and [pthread_cond_signal] is
    called once (the call that wakes one waiter; no broadcast), nothing else
    changes; when the player is busy and [v] is the pending value, the
    globals are left as they are and no call is made on [cond]. *)
Theorem deposit_overwrites_or_leaves (v : Z) (g : globals) :
  let g' := snd (deposit v g) in
  (is_playing g = false \/ v <> current_intensity g ->
     current_intensity g' = v
     /\ cond_calls g' = cond_calls g ++ [CondSignal]
     /\ g' = add_cond_call CondSignal (set_current_intensity v g))
  /\ (is_playing g = true /\ v = current_intensity g -> g' = g).
Proof.
  unfold deposit. run_prog. split.
  - intros H.
    assert (Hc : negb (is_playing g) || negb (v =? current_intensity g) = true).
    { destruct H as [H|H].
      - rewrite H. reflexivity.
      - apply Z.eqb_neq in H. rewrite H. apply orb_true_r. }
    rewrite Hc. cbn. repeat split.
  - intros [Hp Hv]. rewrite Hp, Hv, Z.eqb_refl. reflexivity.
Qed.

Lemma deposit_pending (v : Z) (g : globals) :
  current_intensity (snd (deposit v g)) = current_intensity g
  \/ current_intensity (snd (deposit v g)) = v.
Proof.
  unfold deposit. run_prog.
  destruct (negb (is_playing g) || negb (v =? current_intensity g)); cbn; auto.
Qed.

(** An event leaves the pending slot alone or puts a level in it. *)
Lemma monitor_event_pending (log : double -> double) (cfg : settings)
    (ev : input_event) (g : globals) :
  let g' := snd (monitor_event log cfg ev g) in
  current_intensity g' = current_intensity g
  \/ 1 <= current_intensity g' <= NUM_INTENSITY_LEVELS.
Proof.
  unfold monitor_event.
  destruct (motion_sample ev) as [[dx dy]|]; [|left; reflexivity].
  unfold bind.
  pose proof (intensity_of_range log cfg dx dy) as Hrange.
  rewrite <- (calculate_intensity_value log cfg dx dy g) in Hrange.
  pose proof (calculate_intensity_frame log cfg dx dy g) as Hframe.
  destruct (calculate_intensity log cfg dx dy g) as [v g1].
  cbn [fst snd] in *. destruct Hframe as [Hcur _].
  destruct (deposit_pending v g1) as [H|H]; cbn zeta; rewrite H; auto.
Qed.

(** The player, with the mutex held, waits, returns or takes. *)
Lemma player_locked_cases (g : globals) :
  player_locked g = (PlayerWaiting, g)
  \/ player_locked g = (PlayerReturned, g)
  \/ (current_intensity g <> 0 /\ running g = true
      /\ player_locked g
         = (PlayerPlaying (current_intensity g),
            set_is_playing true (set_current_intensity 0 g))).
Proof.
  unfold player_locked. run_prog.
  destruct (current_intensity g =? 0) eqn:Hc; destruct (running g) eqn:Hr; cbn; auto.
  right. right. apply Z.eqb_neq in Hc. auto.
Qed.

Lemma player_loop_head_cases (g : globals) :
  player_loop_head g = player_locked g \/ player_loop_head g = (PlayerReturned, g).
Proof.
  unfold player_loop_head. run_prog. destruct (running g); auto.
Qed.

(** [play_sound_file] only prints, and what it prints does not depend on the
    status [system] returns. *)
Lemma play_sound_file_frame (cfg : settings) (intensity status : Z) (g : globals) :
  let g' := snd (play_sound_file cfg intensity status g) in
  play_sound_file cfg intensity status g = play_sound_file cfg intensity 0 g
  /\ debug g' = debug g
  /\ current_intensity g' = current_intensity g
  /\ is_playing g' = is_playing g
  /\ running g' = running g
  /\ cond_calls g' = cond_calls g.
Proof.
  unfold play_sound_file, system. run_prog.
  destruct (enabled (debug g)) eqn:He; cbn; rewrite ?He;
    destruct (no_sound cfg); cbn; rewrite ?He; repeat split.
Qed.

Lemma player_plays_frame (cfg : settings) (intensity status : Z) (g : globals) :
  let r := player_plays cfg intensity status g in
  r = player_plays cfg intensity 0 g
  /\ fst r = PlayerLoop
  /\ is_playing (snd r) = false
  /\ current_intensity (snd r) = current_intensity g
  /\ running (snd r) = running g.
Proof.
  pose proof (play_sound_file_frame cfg intensity status g) as H.
  cbn zeta in H. destruct H as (Heq & _ & Hc & _ & Hr & _).
  unfold player_plays, bind. rewrite Heq in *.
  destruct (play_sound_file cfg intensity 0 g) as [u g1]. cbn in *.
  repeat split; assumption.
Qed.

Lemma monitor_event_running (log : double -> double) (cfg : settings)
    (ev : input_event) (g : globals) :
  running (snd (monitor_event log cfg ev g)) = running g.
Proof.
  unfold monitor_event.
  destruct (motion_sample ev) as [[dx dy]|]; [|reflexivity].
  unfold bind.
  pose proof (calculate_intensity_frame log cfg dx dy g) as Hframe.
  destruct (calculate_intensity log cfg dx dy g) as [v g1].
  cbn [fst snd] in *. destruct Hframe as (_ & _ & Hrun & _).
  rewrite <- Hrun. unfold deposit. run_prog.
  destruct (negb (is_playing g1) || negb (v =? current_intensity g1)); reflexivity.
Qed.

(** ** The process *)

(** [calculate_intensity] is its two parts, one after the other. *)
Lemma calculate_intensity_in_parts
    (log : double -> double) (cfg : settings) (dx dy : Z) (g : globals) :
  calculate_intensity log cfg dx dy g
  = match calculate_intensity_begin log cfg dx dy g with
    | (inl intensity, g1) => calculate_intensity_end intensity g1
    | (inr new_intensity, g1) => (new_intensity, g1)
    end.
Proof.
  unfold calculate_intensity, calculate_intensity_begin, calculate_intensity_end.
  run_prog.
  destruct (_ <? _)%float; [|destruct (_ <? _)%float];
    cbn; destruct (enabled (debug g)); reflexivity.
Qed.

Lemma calculate_intensity_begin_frame
    (log : double -> double) (cfg : settings) (dx dy : Z) (g : globals) :
  let r := calculate_intensity_begin log cfg dx dy g in
  current_intensity (snd r) = current_intensity g
  /\ is_playing (snd r) = is_playing g
  /\ running (snd r) = running g
  /\ cond_calls (snd r) = cond_calls g
  /\ match fst r with
     | inl intensity =>
         1 <= intensity <= NUM_INTENSITY_LEVELS
         /\ exists d, debug (snd r) = count_level intensity d
                      /\ intensity_counts d = intensity_counts (debug g)
                      /\ total_movements d = total_movements (debug g)
     | inr new_intensity =>
         1 <= new_intensity <= NUM_INTENSITY_LEVELS
         /\ intensity_counts (debug (snd r)) = intensity_counts (debug g)
         /\ total_movements (debug (snd r)) = total_movements (debug g)
     end.
Proof.
  unfold calculate_intensity_begin, NUM_INTENSITY_LEVELS. run_prog.
  destruct (_ <? _)%float; [|destruct (_ <? _)%float];
    cbn; destruct (enabled (debug g)); cbn; repeat split; try lia;
    try apply clamp_intensity_range;
    eexists; (split; [reflexivity|split; reflexivity]).
Qed.

Lemma handler_statement_frame (h : handler_pc) (g : globals) :
  let g' := snd (handler_statement h g) in
  debug g' = debug g
  /\ current_intensity g' = current_intensity g
  /\ is_playing g' = is_playing g
  /\ running g' = match h with HandlerClearRunning => false | _ => running g end
  /\ cond_calls g' = match h with
                     | HandlerBroadcast => cond_calls g ++ [CondBroadcast]
                     | _ => cond_calls g
                     end.
Proof.
  destruct h; unfold handler_statement, print_debug_stats; run_prog; cbn;
    try destruct (enabled (debug g)); cbn; repeat split.
Qed.

(** The statements of the handler, run without interruption, are
    [handle_signal]. *)
Lemma handler_statements_compose (g : globals) :
  snd (handle_signal g)
  = snd (handler_statement HandlerStats
           (snd (handler_statement HandlerBroadcast
                   (snd (handler_statement HandlerClearRunning
                           (snd (handler_statement HandlerPrintf g))))))).
Proof.
  unfold handle_signal, handler_statement, print_debug_stats. run_prog. cbn.
  destruct (enabled (debug g)); reflexivity.
Qed.

Lemma deposit_latest_wins (v : Z) (g : globals) :
  current_intensity (snd (deposit v g)) = v.
Proof.
  unfold deposit. run_prog.
  destruct (is_playing g); destruct (v =? current_intensity g) eqn:Hv; cbn;
    try reflexivity.
  apply Z.eqb_eq in Hv. symmetry. exact Hv.
Qed.

Lemma deposit_calls (v : Z) (g : globals) :
  (is_playing g = true /\ current_intensity g = v
   /\ cond_calls (snd (deposit v g)) = cond_calls g)
  \/ (~ (is_playing g = true /\ current_intensity g = v)
      /\ cond_calls (snd (deposit v g)) = cond_calls g ++ [CondSignal]).
Proof.
  unfold deposit. run_prog.
  destruct (is_playing g); destruct (v =? current_intensity g) eqn:Hv; cbn.
  - left. apply Z.eqb_eq in Hv. auto.
  - right. apply Z.eqb_neq in Hv. split; [|reflexivity].
    intros [_ H]. congruence.
  - right. split; [|reflexivity]. intros [H _]. discriminate.
  - right. split; [|reflexivity]. intros [H _]. discriminate.
Qed.

Lemma deposit_frame (v : Z) (g : globals) :
  debug (snd (deposit v g)) = debug g
  /\ is_playing (snd (deposit v g)) = is_playing g
  /\ running (snd (deposit v g)) = running g
  /\ printed (snd (deposit v g)) = printed g.
Proof.
  unfold deposit. run_prog.
  destruct (negb (is_playing g) || negb (v =? current_intensity g)); cbn; auto.
Qed.

Section ProcessFacts.

Variable log : double -> double.
Variable cfg : settings.

(** After the exit nothing runs: no event is read, nothing is played. *)
Lemma no_step_after_exit (p : process) (a : action) (s : Z) :
  exit_status p = Some s -> step log cfg p a = None.
Proof. intros H. unfold step. rewrite H. reflexivity. Qed.

Lemma step_from_running (p p' : process) (a : action) :
  step log cfg p a = Some p' ->
  exit_status p = None /\ step_running log cfg p a = Some p'.
Proof.
  unfold step. destruct (exit_status p); [discriminate|]. auto.
Qed.

Lemma step_preserves_channel_inv (p p' : process) (a : action) :
  channel_inv p -> step log cfg p a = Some p' -> channel_inv p'.
Proof.
  intros (Hpend & Hplay & Hcomp) Hstep. unfold channel_inv.
  apply step_from_running in Hstep. destruct Hstep as [Hlive Hstep].
  destruct a; cbn [step_running] in Hstep.
  - (* ReadEvent *)
    destruct (monitor p) eqn:Hmon; try discriminate.
    destruct (running (mem p)); [|discriminate].
    inversion Hstep; subst; clear Hstep. cbn. rewrite Hmon.
    split; [|split; [assumption|exact I]].
    destruct (monitor_event_pending log cfg ev (mem p)) as [H|H]; cbn zeta in H.
    + rewrite H. assumption.
    + right. assumption.
  - (* ReadFails *)
    destruct (monitor p); try discriminate.
    inversion Hstep; subst; clear Hstep. cbn.
    split; [|split; [assumption|exact I]]. destruct (running (mem p)); assumption.
  - (* PlayerRuns *)
    assert (Hlocked : channel_inv (with_player p (player_locked (mem p)))).
    { destruct (player_locked_cases (mem p)) as [H|[H|(Hne & _ & H)]];
        rewrite H; unfold channel_inv; cbn.
      - split; [assumption|split; [exact I|assumption]].
      - split; [assumption|split; [exact I|assumption]].
      - split; [left; reflexivity|split; [|assumption]].
        destruct Hpend as [H0|Hr]; [contradiction|assumption]. }
    destruct (player p); try discriminate; inversion Hstep; subst; clear Hstep.
    + destruct (player_loop_head_cases (mem p)) as [H|H]; rewrite H.
      * exact Hlocked.
      * unfold channel_inv. cbn. split; [assumption|split; [exact I|assumption]].
    + exact Hlocked.
  - (* PlaybackReturns *)
    destruct (player p) as [| |intensity| |]; try discriminate.
    inversion Hstep; subst; clear Hstep.
    destruct (player_plays_frame cfg intensity status (mem p)) as (_ & Hpc & _ & Hc & _).
    cbn zeta in *. cbn. rewrite Hpc, Hc. split; [assumption|split; [exact I|assumption]].
  - (* PlayerCancels *)
    destruct (cancel_requested p && at_cancellation_point cfg (player p)); [|discriminate].
    inversion Hstep; subst; clear Hstep. cbn.
    split; [assumption|split; [exact I|assumption]].
  - (* JoinReturns *)
    destruct (monitor p); try discriminate.
    destruct (player_terminated (player p)); [|discriminate].
    inversion Hstep; subst; clear Hstep. cbn. split; [assumption|split; [assumption|exact I]].
  - (* Sigint *)
    destruct (sigint_ignored cfg (player p)).
    + inversion Hstep; subst; clear Hstep. auto.
    + destruct (monitor p) eqn:Hmon; try discriminate;
        inversion Hstep; subst; clear Hstep; cbn; rewrite ?Hmon;
        (split; [assumption|split; [assumption|first [exact I|assumption]]]).
  - (* ReadReturns *)
    destruct (monitor p) eqn:Hmon; try discriminate.
    destruct (running (mem p)); [|discriminate].
    destruct (motion_sample ev) as [[dx dy]|].
    + pose proof (calculate_intensity_begin_frame log cfg dx dy (mem p)) as Hframe.
      destruct (calculate_intensity_begin log cfg dx dy (mem p)) as [r g].
      cbn [fst snd] in Hframe. cbn zeta in Hframe.
      destruct Hframe as (Hc & _ & _ & _ & Hr).
      inversion Hstep; subst; clear Hstep. cbn. rewrite Hc.
      split; [assumption|split; [assumption|]].
      destruct r; destruct Hr as [Hr _]; exact Hr.
    + inversion Hstep; subst; clear Hstep. rewrite Hmon. auto.
  - (* MonitorRuns *)
    destruct (monitor p) as [| | |intensity|new_intensity|h] eqn:Hmon; try discriminate;
      inversion Hstep; subst; clear Hstep; unfold with_monitor; cbn [mem player monitor].
    + split; [assumption|split; [assumption|exact Hcomp]].
    + split; [|split; [assumption|exact I]].
      destruct (deposit_pending new_intensity (mem p)) as [H|H]; rewrite H;
        [assumption|right; exact Hcomp].
  - (* HandlerRuns *)
    destruct (monitor p) as [| | | | |h]; try discriminate.
    destruct (handler_statement_frame h (mem p)) as (_ & Hc & _).
    cbn zeta in Hc.
    destruct h; cbn in Hc; inversion Hstep; subst; clear Hstep;
      unfold with_monitor; cbn; rewrite ?Hc;
      (split; [assumption|split; [assumption|exact I]]).
Qed.

Lemma reachable_channel_inv (debug_enabled : bool) (p : process) :
  reachable log cfg debug_enabled p -> channel_inv p.
Proof.
  induction 1 as [|p a p' _ IH Hstep].
  - unfold channel_inv. cbn. split; [left; reflexivity|split; exact I].
  - exact (step_preserves_channel_inv p p' a IH Hstep).
Qed.

(** [running] is cleared by the SIGINT handler only: it is false exactly
    when the handler has executed [running = false].  The process ends
    with status 0, either by the handler's [exit(0)] or, with [running]
    still true, by the return of [main] after [pthread_join], the player
    having ended. *)
Lemma reachable_running (debug_enabled : bool) (p : process) :
  reachable log cfg debug_enabled p ->
  running (mem p) = negb (running_cleared (monitor p))
  /\ (forall s, exit_status p = Some s ->
        s = 0
        /\ ((monitor p = MonitorReturned /\ player_terminated (player p) = true)
            \/ monitor p = MonitorHandling HandlerExit))
  /\ (exit_status p = None -> monitor p <> MonitorReturned).
Proof.
  induction 1 as [|p a p' _ (IH & _ & IHlive) Hstep].
  - cbn. split; [reflexivity|]. split; discriminate.
  - apply step_from_running in Hstep. destruct Hstep as [Hlive Hstep].
    specialize (IHlive Hlive).
    destruct a; cbn [step_running] in Hstep.
    + destruct (monitor p) eqn:Hmon; try discriminate.
      destruct (running (mem p)) eqn:Hrun; [|discriminate].
      inversion Hstep; subst; clear Hstep. cbn.
      rewrite monitor_event_running, Hmon, Hlive, Hrun.
      split; [exact IH|]. split; discriminate.
    + destruct (monitor p) eqn:Hmon; try discriminate. cbn in IH.
      inversion Hstep; subst; clear Hstep. cbn. rewrite IH. cbn.
      split; [exact IH|]. split; discriminate.
    + assert (Hlocked : running (snd (player_locked (mem p))) = running (mem p)).
      { destruct (player_locked_cases (mem p)) as [H|[H|(_ & _ & H)]];
          rewrite H; reflexivity. }
      assert (Hhead : running (snd (player_loop_head (mem p))) = running (mem p)).
      { destruct (player_loop_head_cases (mem p)) as [H|H]; rewrite H;
          [exact Hlocked|reflexivity]. }
      destruct (player p); try discriminate; inversion Hstep; subst; clear Hstep;
        unfold with_player; cbn [mem exit_status monitor]; rewrite Hlive;
        rewrite ?Hlocked, ?Hhead;
        (split; [exact IH|]); (split; [discriminate|intros _; exact IHlive]).
    + destruct (player p) as [| |intensity| |]; try discriminate.
      inversion Hstep; subst; clear Hstep.
      destruct (player_plays_frame cfg intensity status (mem p)) as (_ & _ & _ & _ & Hr).
      cbn zeta in Hr. unfold with_player. cbn [mem exit_status monitor].
      rewrite Hr, Hlive.
      split; [exact IH|]. split; [discriminate|intros _; exact IHlive].
    + destruct (cancel_requested p && at_cancellation_point cfg (player p)); [|discriminate].
      inversion Hstep; subst; clear Hstep. cbn. rewrite Hlive.
      split; [exact IH|]. split; [discriminate|intros _; exact IHlive].
    + destruct (monitor p) eqn:Hmon; try discriminate.
      destruct (player_terminated (player p)) eqn:Hterm; [|discriminate].
      inversion Hstep; subst; clear Hstep. cbn.
      split; [exact IH|]. split; [|discriminate].
      intros s Hs. inversion Hs. auto.
    + destruct (sigint_ignored cfg (player p)).
      * inversion Hstep; subst; clear Hstep.
        split; [exact IH|]. split; [rewrite Hlive; discriminate|intros _; exact IHlive].
      * destruct (monitor p) eqn:Hmon; try discriminate;
          inversion Hstep; subst; clear Hstep; cbn; rewrite ?Hmon, ?Hlive;
          (split; [exact IH|]); (split; discriminate).
    + destruct (monitor p) eqn:Hmon; try discriminate.
      destruct (running (mem p)) eqn:Hrun; [|discriminate].
      destruct (motion_sample ev) as [[dx dy]|].
      * pose proof (calculate_intensity_begin_frame log cfg dx dy (mem p)) as Hframe.
        destruct (calculate_intensity_begin log cfg dx dy (mem p)) as [r g].
        cbn [fst snd] in Hframe. cbn zeta in Hframe.
        destruct Hframe as (_ & _ & Hr & _).
        inversion Hstep; subst; clear Hstep. cbn. rewrite Hr, Hlive, Hrun.
        split; [destruct r; reflexivity|]. split; [discriminate|].
        intros _. destruct r; discriminate.
      * inversion Hstep; subst; clear Hstep. rewrite Hmon, Hlive, Hrun.
        split; [reflexivity|]. split; discriminate.
    + destruct (monitor p) as [| | |intensity|new_intensity|h] eqn:Hmon; try discriminate;
        inversion Hstep; subst; clear Hstep; unfold with_monitor;
        cbn [mem player monitor exit_status calculate_intensity_end snd running_cleared negb];
        rewrite Hlive.
      * split; [exact IH|]. split; discriminate.
      * destruct (deposit_frame new_intensity (mem p)) as (_ & _ & Hr & _).
        rewrite Hr. split; [exact IH|]. split; discriminate.
    + destruct (monitor p) as [| | | | |h] eqn:Hmon; try discriminate.
      destruct (handler_statement_frame h (mem p)) as (_ & _ & _ & Hr & _).
      cbn zeta in Hr.
      destruct h; injection Hstep as Hp; subst p'; unfold with_monitor;
        cbn in Hr, IH |- *; rewrite ?Hr, ?Hmon, ?Hlive, ?IH;
        (split; [reflexivity|]); try (split; discriminate).
      split; [|discriminate].
      intros s Hs. inversion Hs. auto.
Qed.

(** [ReadEvent] is [ReadReturns] followed by the steps of the monitor that
    remain, when nothing else runs in between. *)
Lemma read_event_in_parts (p : process) (ev : input_event) :
  exit_status p = None -> monitor p = MonitorReading -> running (mem p) = true ->
  exists n,
    (n <= 2)%nat
    /\ run log cfg (ReadReturns ev :: repeat MonitorRuns n) p
       = step log cfg p (ReadEvent ev).
Proof.
  destruct p as [g pc mon cancel status]. cbn [exit_status monitor mem].
  intros Hlive Hmon Hrun. subst status mon.
  unfold step. cbn [run step exit_status step_running monitor mem]. rewrite Hrun.
  unfold monitor_event. destruct (motion_sample ev) as [[dx dy]|].
  - unfold bind. rewrite calculate_intensity_in_parts.
    destruct (calculate_intensity_begin log cfg dx dy g) as [[intensity|new_intensity] g1].
    + exists 2%nat. split; [lia|]. reflexivity.
    + exists 1%nat. split; [lia|]. reflexivity.
  - exists 0%nat. split; [lia|]. reflexivity.
Qed.

(** The five steps of the handler are [handle_signal]; the process exits
    with the status it passes to [exit]. *)
Lemma handler_runs_to_exit (p : process) :
  exit_status p = None -> monitor p = MonitorHandling HandlerPrintf ->
  run log cfg (repeat HandlerRuns 5) p
  = Some {| mem := snd (handle_signal (mem p));
            player := player p;
            monitor := MonitorHandling HandlerExit;
            cancel_requested := cancel_requested p;
            exit_status := Some (fst (handle_signal (mem p))) |}.
Proof.
  destruct p as [g pc mon cancel status]. cbn [exit_status monitor mem player cancel_requested].
  intros Hlive Hmon. subst status mon.
  assert (Hstatus : fst (handle_signal g) = 0).
  { unfold handle_signal, print_debug_stats. run_prog. cbn.
    destruct (enabled (debug g)); reflexivity. }
  rewrite handler_statements_compose, Hstatus. reflexivity.
Qed.

(** Entering the handler and a step of the player thread are independent: a
    SIGINT taken just before a step of the player leads to the state that
    a SIGINT taken during that step, outside [system], leads to. *)
Lemma sigint_entry_commutes (p p2 : process) (a : action) :
  player_action a = true ->
  step log cfg p a = Some p2 ->
  step log cfg (with_monitor p (MonitorHandling HandlerPrintf) (mem p)) a
  = Some (with_monitor p2 (MonitorHandling HandlerPrintf) (mem p2)).
Proof.
  intros Ha Hstep. apply step_from_running in Hstep. destruct Hstep as [Hlive Hstep].
  destruct p as [g pc mon cancel status]. cbn [exit_status] in Hlive. subst status.
  unfold step, with_monitor. cbn [exit_status mem player cancel_requested].
  destruct a; try discriminate Ha; cbn [step_running player mem cancel_requested] in *.
  - destruct pc; try discriminate; injection Hstep as Hp; subst p2; reflexivity.
  - destruct pc; try discriminate; injection Hstep as Hp; subst p2; reflexivity.
  - destruct (cancel && at_cancellation_point cfg pc); [|discriminate].
    injection Hstep as Hp; subst p2; reflexivity.
Qed.

End ProcessFacts.

(** ** Claims about the channel and the process *)

(** C9. In every state the process reaches, the pending slot holds 0 or a
    level between 1 and 10; whatever the monitor passes on is the mapper's
    result, between 1 and 10 and so never the 0 that means empty; an event
    leaves the slot as it is or puts such a level in it; and a take by the
    player returns the pending level and resets the slot to exactly 0. *)
Theorem pending_slot_is_empty_or_level
    (log : double -> double) (cfg : settings) (debug_enabled : bool) (p : process) :
  reachable log cfg debug_enabled p ->
  pending_ok (current_intensity (mem p))
  /\ (forall dx dy,
        1 <= fst (calculate_intensity log cfg dx dy (mem p)) <= NUM_INTENSITY_LEVELS
        /\ fst (calculate_intensity log cfg dx dy (mem p)) <> 0)
  /\ (forall ev,
        let g' := snd (monitor_event log cfg ev (mem p)) in
        current_intensity g' = current_intensity (mem p)
        \/ 1 <= current_intensity g' <= NUM_INTENSITY_LEVELS)
  /\ (forall level g',
        player_locked (mem p) = (PlayerPlaying level, g') ->
        level = current_intensity (mem p)
        /\ 1 <= level <= NUM_INTENSITY_LEVELS
        /\ current_intensity g' = 0
        /\ is_playing g' = true).
Proof.
  intros Hreach.
  destruct (reachable_channel_inv log cfg debug_enabled p Hreach) as [Hpend _].
  split; [exact Hpend|]. split; [|split].
  - intros dx dy.
    rewrite calculate_intensity_value.
    pose proof (intensity_of_range log cfg dx dy) as H.
    split; [exact H|lia].
  - intros ev. apply monitor_event_pending.
  - intros level g' Htake.
    destruct (player_locked_cases (mem p)) as [H|[H|(Hne & _ & H)]];
      rewrite H in Htake; inversion Htake; subst; clear Htake.
    cbn. repeat split; destruct Hpend as [H0|[Hlo Hhi]];
      solve [contradiction | assumption].
Qed.

Lemma pending_slot_is_empty_or_level_witness :
  reachable log_sample default_settings false process_pending
  /\ current_intensity (mem process_pending) = 10
  /\ pending_ok (current_intensity (mem process_pending)).
Proof.
  assert (Hreach : reachable log_sample default_settings false process_pending).
  { apply (reachable_step _ _ _ (process_init false) (ReadEvent (rel_x 200)));
      [apply reachable_init|reflexivity]. }
  split; [exact Hreach|]. split; [reflexivity|].
  exact (proj1 (pending_slot_is_empty_or_level
                  log_sample default_settings false process_pending Hreach)).
Defined.

(** While the player is inside [system], which [play_sound_file] calls when
    the sound is on, a SIGINT changes nothing: the signal is ignored and
    [handle_signal] is not entered. *)
Lemma sigint_ignored_during_playback
    (log : double -> double) (cfg : settings) (p : process) (intensity : Z) :
  exit_status p = None -> player p = PlayerPlaying intensity -> no_sound cfg = false ->
  step log cfg p Sigint = Some p.
Proof.
  intros Hlive Hpc Hsound. unfold step. rewrite Hlive. cbn [step_running].
  unfold sigint_ignored. rewrite Hpc, Hsound. reflexivity.
Qed.

(** C3, on the run: nothing is pending, the player runs up to
    [pthread_cond_wait]; SIGINT arrives while the monitor is in [read], and
    [handle_signal] runs its five statements on the main thread: the message,
    [running = false], the broadcast on [cond], [print_debug_stats], and
    [exit(0)].  The process has exited while the player is still in
    [pthread_cond_wait], not having run since the broadcast, and the monitor
    is inside the handler, never having left its read loop; neither thread
    has ended and nothing has joined the player. *)
Theorem sigint_exits_with_threads_alive (log : double -> double) :
  exists p,
    run log default_settings
      [PlayerRuns; Sigint; HandlerRuns; HandlerRuns; HandlerRuns; HandlerRuns; HandlerRuns]
      (process_init false)
    = Some p
    /\ exit_status p = Some 0
    /\ running (mem p) = false
    /\ cond_calls (mem p) = [CondBroadcast]
    /\ player p = PlayerWaiting
    /\ player_terminated (player p) = false
    /\ is_playing (mem p) = false
    /\ monitor p = MonitorHandling HandlerExit
    /\ cancel_requested p = false.
Proof.
  eexists. split; [reflexivity|]. repeat split.
Qed.

(** The other way out, for comparison: an exit that is not the SIGINT
    handler's comes after [pthread_join], with both threads ended. *)
Lemma exit_by_return_joins_player
    (log : double -> double) (cfg : settings) (debug_enabled : bool) (p : process) (s : Z) :
  reachable log cfg debug_enabled p ->
  exit_status p = Some s -> running (mem p) = true ->
  monitor p = MonitorReturned /\ player_terminated (player p) = true.
Proof.
  intros Hreach Hexit Hrun.
  destruct (reachable_running log cfg debug_enabled p Hreach) as (Hr & Hs & _).
  destruct (Hs s Hexit) as [_ [H|H]]; [exact H|].
  rewrite H, Hrun in Hr. discriminate.
Qed.

(** C8 as stated fails: a playback of level 10 that ends with status 256
    ([aplay] exit code 1, e.g. a missing file) prints nothing, and the
    program's output is the output of a successful playback. *)
Lemma failed_playback_is_silent :
  printed (snd (player_plays default_settings 10 256 (mem process_playing))) = []
  /\ ~ failure_reported default_settings 10 256 (mem process_playing).
Proof.
  split; [reflexivity|]. intros H. apply H. reflexivity.
Qed.

(** C8, amended.  When [play_sound_file] finishes, whatever status [system]
    returned: the process has not exited, the player is back at the head of
    its loop with [is_playing] cleared and [running] as it was, the state is
    the one a successful playback leaves (the failure is not reported), and
    the player can run its next iteration. *)
Theorem playback_outcome_ignored
    (log : double -> double) (cfg : settings) (p : process) (intensity status : Z) :
  exit_status p = None ->
  player p = PlayerPlaying intensity ->
  exists p',
    step log cfg p (PlaybackReturns status) = Some p'
    /\ step log cfg p (PlaybackReturns 0) = Some p'
    /\ player p' = PlayerLoop
    /\ is_playing (mem p') = false
    /\ running (mem p') = running (mem p)
    /\ exit_status p' = None
    /\ exists p'', step log cfg p' PlayerRuns = Some p''.
Proof.
  intros Hlive Hpc.
  destruct (player_plays_frame cfg intensity status (mem p)) as (Heq & Hloop & Hidle & _ & Hrun).
  cbn zeta in *.
  exists (with_player p (player_plays cfg intensity status (mem p))).
  unfold step. rewrite Hlive. cbn [step_running]. rewrite Hpc.
  split; [reflexivity|]. split; [rewrite <- Heq; reflexivity|].
  unfold with_player. cbn [player mem exit_status monitor cancel_requested].
  rewrite Hloop, Hidle, Hrun, Hlive.
  repeat split. eexists. reflexivity.
Qed.

Lemma playback_outcome_ignored_witness :
  exit_status process_playing = None
  /\ player process_playing = PlayerPlaying 10
  /\ exists p',
       step log_sample default_settings process_playing (PlaybackReturns 256) = Some p'
       /\ step log_sample default_settings process_playing (PlaybackReturns 0) = Some p'
       /\ player p' = PlayerLoop
       /\ is_playing (mem p') = false
       /\ running (mem p') = running (mem process_playing)
       /\ exit_status p' = None
       /\ exists p'', step log_sample default_settings p' PlayerRuns = Some p''.
Proof.
  split; [reflexivity|]. split; [reflexivity|].
  exact (playback_outcome_ignored log_sample default_settings process_playing 10 256
           eq_refl eq_refl).
Defined.

(** * Further properties of the code *)

(** ** The monitor's loop body *)

Lemma app_singleton_neq {A} (l : list A) (x : A) : l ++ [x] <> l.
Proof.
  intros H. apply (f_equal (@length A)) in H.
  rewrite length_app in H. cbn in H. lia.
Qed.

(** X1. Latest wins.  After a relative-motion event on X or Y has been
    handled, the pending slot holds the level computed for that event,
    whatever it held before and whether or not the player is busy; the test
    in the critical section only decides whether [pthread_cond_signal] is
    called, and it is skipped exactly when the player is busy and that
    level was already pending. *)
Theorem monitor_event_latest_wins
    (log : double -> double) (cfg : settings) (ev : input_event) (dx dy : Z)
    (g : globals) :
  motion_sample ev = Some (dx, dy) ->
  let g' := snd (monitor_event log cfg ev g) in
  let level := intensity_of log cfg dx dy in
  current_intensity g' = level
  /\ (cond_calls g' = cond_calls g
      <-> is_playing g = true /\ current_intensity g = level)
  /\ (cond_calls g' = cond_calls g \/ cond_calls g' = cond_calls g ++ [CondSignal]).
Proof.
  intros Hsample. unfold monitor_event. rewrite Hsample. unfold bind.
  pose proof (calculate_intensity_value log cfg dx dy g) as Hv.
  pose proof (calculate_intensity_frame log cfg dx dy g) as Hframe.
  destruct (calculate_intensity log cfg dx dy g) as [v g1].
  cbn [fst snd] in *. cbn zeta in Hframe.
  destruct Hframe as (Hcur & Hplay & _ & Hcalls & _).
  subst v. cbn zeta. split; [apply deposit_latest_wins|].
  destruct (deposit_calls (intensity_of log cfg dx dy) g1)
    as [(Hp & Hc & Heq)|(Hn & Heq)]; rewrite Heq, Hcalls.
  - split; [|left; reflexivity].
    split; [intros _|reflexivity]. rewrite <- Hplay, <- Hcur. auto.
  - split; [|right; reflexivity].
    split.
    + intros H. exfalso. exact (app_singleton_neq _ _ H).
    + intros [Hp Hc]. exfalso. apply Hn. rewrite Hplay, Hcur. auto.
Qed.

Lemma monitor_event_latest_wins_witness :
  motion_sample (rel_x 200) = Some (200, 0)
  /\ current_intensity
       (snd (monitor_event log_sample default_settings (rel_x 200) (globals_init false)))
     = intensity_of log_sample default_settings 200 0.
Proof.
  split; [reflexivity|].
  exact (proj1 (monitor_event_latest_wins log_sample default_settings (rel_x 200) 200 0
                  (globals_init false) eq_refl)).
Defined.

(** X2. Every event that is not [EV_REL] with code [REL_X] or [REL_Y] (keys,
    wheel, sync, absolute axes) is dropped: the globals, the debug
    statistics included, are left as they are, nothing is printed and the
    condition variable is not touched. *)
Theorem monitor_event_ignores_other_events
    (log : double -> double) (cfg : settings) (ev : input_event) (g : globals) :
  ev_type ev <> EV_REL \/ (ev_code ev <> REL_X /\ ev_code ev <> REL_Y) ->
  motion_sample ev = None /\ monitor_event log cfg ev g = (tt, g).
Proof.
  intros H.
  assert (Hnone : motion_sample ev = None).
  { unfold motion_sample. destruct H as [H|[Hx Hy]].
    - apply Z.eqb_neq in H. rewrite H. reflexivity.
    - apply Z.eqb_neq in Hx, Hy. rewrite Hx, Hy.
      destruct (ev_type ev =? EV_REL); reflexivity. }
  split; [exact Hnone|]. unfold monitor_event. rewrite Hnone. reflexivity.
Qed.

Lemma monitor_event_ignores_other_events_witness :
  monitor_event log_sample default_settings key_event (globals_init true)
  = (tt, globals_init true).
Proof.
  apply (monitor_event_ignores_other_events log_sample default_settings key_event).
  left. discriminate.
Defined.

Lemma monitor_event_frame (log : double -> double) (cfg : settings)
    (ev : input_event) (g : globals) :
  let g' := snd (monitor_event log cfg ev g) in
  is_playing g' = is_playing g
  /\ (cond_calls g' = cond_calls g \/ cond_calls g' = cond_calls g ++ [CondSignal]).
Proof.
  unfold monitor_event.
  destruct (motion_sample ev) as [[dx dy]|]; [|cbn; auto].
  unfold bind.
  pose proof (calculate_intensity_frame log cfg dx dy g) as Hframe.
  destruct (calculate_intensity log cfg dx dy g) as [v g1].
  cbn [fst snd] in *. cbn zeta in *.
  destruct Hframe as (_ & Hplay & _ & Hcalls & _).
  destruct (deposit_frame v g1) as (_ & Hp & _).
  split; [congruence|].
  destruct (deposit_calls v g1) as [(_ & _ & Heq)|(_ & Heq)];
    rewrite Heq, Hcalls; auto.
Qed.

(** ** The mapper: symmetry and the statistics it keeps *)

Lemma movement_of_symmetric (dx dy : Z) :
  movement_of dy dx = movement_of dx dy
  /\ movement_of (- dx) dy = movement_of dx dy
  /\ movement_of dx (- dy) = movement_of dx dy.
Proof.
  unfold movement_of, int_add, int_mul.
  rewrite !Z.mul_opp_opp, (Z.add_comm (wrap_int (dy * dy))). auto.
Qed.

(** X3. The level depends on the two deltas through [dx*dx + dy*dy] only: it
    is the same when the deltas are swapped and when either changes sign,
    overflowing deltas included. *)
Theorem calculate_intensity_symmetric
    (log : double -> double) (cfg : settings) (dx dy : Z) (g : globals) :
  fst (calculate_intensity log cfg dy dx g) = fst (calculate_intensity log cfg dx dy g)
  /\ fst (calculate_intensity log cfg (- dx) dy g) = fst (calculate_intensity log cfg dx dy g)
  /\ fst (calculate_intensity log cfg dx (- dy) g) = fst (calculate_intensity log cfg dx dy g).
Proof.
  rewrite !calculate_intensity_value. unfold intensity_of.
  destruct (movement_of_symmetric dx dy) as (Hswap & Hx & Hy).
  rewrite Hswap, Hx, Hy. auto.
Qed.

Lemma wrap_long_add_l (a b : Z) : wrap_long (wrap_long a + b) = wrap_long (a + b).
Proof.
  unfold wrap_long. f_equal.
  replace ((a + 9223372036854775808) mod 18446744073709551616
           - 9223372036854775808 + b + 9223372036854775808)
    with ((a + 9223372036854775808) mod 18446744073709551616 + b) by ring.
  rewrite Zplus_mod_idemp_l. f_equal. ring.
Qed.

Lemma incr_nth_length (n : nat) (a : list Z) :
  length (incr_nth n a) = length a.
Proof.
  revert n. induction a as [|x a IH]; intros [|n]; cbn; auto.
Qed.

Lemma incr_nth_sum (n : nat) (a : list Z) :
  (n < length a)%nat ->
  wrap_long (long_sum (incr_nth n a)) = wrap_long (long_sum a + 1).
Proof.
  revert n. induction a as [|x a IH]; intros n Hn; cbn in Hn; [lia|].
  destruct n as [|n]; cbn [incr_nth long_sum fold_right].
  - rewrite wrap_long_add_l. f_equal. ring.
  - fold (long_sum (incr_nth n a)). fold (long_sum a).
    rewrite (Z.add_comm x), <- wrap_long_add_l, IH by lia.
    rewrite wrap_long_add_l. f_equal. ring.
Qed.

Lemma incr_nth_head (n : nat) (a : list Z) :
  (0 < n)%nat -> nth 0 (incr_nth n a) 0 = nth 0 a 0.
Proof.
  intros Hn. destruct a as [|x a]; destruct n as [|n]; cbn; auto. lia.
Qed.

Lemma count_intensity_histogram (level : Z) (d : debug_stats) :
  1 <= level <= NUM_INTENSITY_LEVELS ->
  histogram_ok d -> histogram_ok (count_intensity level d).
Proof.
  unfold NUM_INTENSITY_LEVELS. intros Hlevel (Hlen & Hzero & Hsum).
  unfold histogram_ok, count_intensity. cbn.
  split; [rewrite incr_nth_length; exact Hlen|]. split.
  - rewrite incr_nth_head by lia. exact Hzero.
  - rewrite incr_nth_sum by lia. rewrite <- Hsum, wrap_long_add_l. reflexivity.
Qed.

Lemma calculate_intensity_histogram
    (log : double -> double) (cfg : settings) (dx dy : Z) (g : globals) :
  histogram_ok (debug g) ->
  histogram_ok (debug (snd (calculate_intensity log cfg dx dy g))).
Proof.
  intros Hok.
  pose proof (intensity_of_range log cfg dx dy) as Hrange.
  rewrite <- (calculate_intensity_value log cfg dx dy g) in Hrange.
  destruct (calculate_intensity_frame log cfg dx dy g) as (_ & _ & _ & _ & Hd & _).
  cbn zeta in Hd. destruct Hd as [Hd|Hd]; rewrite Hd.
  - exact Hok.
  - apply count_intensity_histogram; [exact Hrange|exact Hok].
Qed.

(** X4. Only the calls that take the scaling path are counted: a call that
    returns through one of the two threshold tests leaves
    [debug.intensity_counts] and [debug.total_movements] as they were (so
    the statistics miss every movement below the minimum or above the
    maximum threshold), and a call on the scaling path adds one to the
    counter of the level it returns and one to the total. *)
Theorem calculate_intensity_counts_scaling_path_only
    (log : double -> double) (cfg : settings) (dx dy : Z) (g : globals) :
  let r := calculate_intensity log cfg dx dy g in
  let movement := movement_of dx dy in
  if ((movement <? min_movement_threshold cfg)
      || (max_movement_threshold cfg <? movement))%float
  then intensity_counts (debug (snd r)) = intensity_counts (debug g)
       /\ total_movements (debug (snd r)) = total_movements (debug g)
  else intensity_counts (debug (snd r))
       = incr_nth (Z.to_nat (fst r)) (intensity_counts (debug g))
       /\ total_movements (debug (snd r)) = wrap_long (total_movements (debug g) + 1).
Proof.
  unfold calculate_intensity. run_prog.
  destruct (_ <? _)%float; [|destruct (_ <? _)%float];
    cbn; destruct (enabled (debug g)); cbn; auto.
Qed.

(** ** Invariants of the process *)

Lemma player_locked_running (g : globals) :
  running g = true -> fst (player_locked g) <> PlayerReturned.
Proof.
  intros Hr. unfold player_locked. run_prog. rewrite Hr.
  destruct (current_intensity g =? 0); cbn; discriminate.
Qed.

Lemma player_loop_head_running (g : globals) :
  running g = true -> player_loop_head g = player_locked g.
Proof.
  intros Hr. unfold player_loop_head. run_prog. rewrite Hr. reflexivity.
Qed.

Lemma player_plays_mem (cfg : settings) (intensity status : Z) (g : globals) :
  debug (snd (player_plays cfg intensity status g)) = debug g
  /\ cond_calls (snd (player_plays cfg intensity status g)) = cond_calls g.
Proof.
  pose proof (play_sound_file_frame cfg intensity status g) as H.
  cbn zeta in H. destruct H as (_ & Hd & _ & _ & _ & Hc).
  unfold player_plays, bind.
  destruct (play_sound_file cfg intensity status g) as [u g1]. cbn in *. auto.
Qed.

Lemma monitor_event_debug (log : double -> double) (cfg : settings)
    (ev : input_event) (g : globals) :
  histogram_ok (debug g) -> histogram_ok (debug (snd (monitor_event log cfg ev g))).
Proof.
  intros Hok. unfold monitor_event.
  destruct (motion_sample ev) as [[dx dy]|]; [|exact Hok].
  unfold bind.
  pose proof (calculate_intensity_histogram log cfg dx dy g Hok) as H.
  destruct (calculate_intensity log cfg dx dy g) as [v g1]. cbn [snd] in *.
  destruct (deposit_frame v g1) as (Hd & _). rewrite Hd. exact H.
Qed.

Section Invariants.

Variable log : double -> double.
Variable cfg : settings.
Variable debug_enabled : bool.

(** Destructs a step into the cases of [step_running]. *)
Ltac step_cases Hstep :=
  apply step_from_running in Hstep;
  let Hlive := fresh "Hlive" in
  destruct Hstep as [Hlive Hstep];
  match type of Hstep with
  | step_running _ _ _ ?a = _ => destruct a; cbn [step_running] in Hstep
  end.

(** A step of the main thread, in the loop or in the handler, leaves the
    player thread where it is and does not write [is_playing]. *)
Lemma monitor_step_frame (p p' : process) (a : action) :
  step log cfg p a = Some p' -> player_action a = false ->
  player p' = player p /\ is_playing (mem p') = is_playing (mem p).
Proof.
  intros Hstep Ha. step_cases Hstep; try discriminate Ha.
  - destruct (monitor p); try discriminate.
    destruct (running (mem p)); [|discriminate].
    injection Hstep as Hp; subst p'.
    destruct (monitor_event_frame log cfg ev (mem p)) as [Hp _]. cbn zeta in Hp.
    unfold with_mem. cbn [player mem]. auto.
  - destruct (monitor p); try discriminate.
    injection Hstep as Hp; subst p'. cbn [player mem].
    destruct (running (mem p)); auto.
  - destruct (monitor p); try discriminate.
    destruct (player_terminated (player p)); [|discriminate].
    injection Hstep as Hp; subst p'. auto.
  - destruct (sigint_ignored cfg (player p)); [injection Hstep as Hp; subst p'; auto|].
    destruct (monitor p); try discriminate; injection Hstep as Hp; subst p'; auto.
  - destruct (monitor p); try discriminate.
    destruct (running (mem p)); [|discriminate].
    destruct (motion_sample ev) as [[dx dy]|]; [|injection Hstep as Hp; subst p'; auto].
    pose proof (calculate_intensity_begin_frame log cfg dx dy (mem p)) as Hframe.
    destruct (calculate_intensity_begin log cfg dx dy (mem p)) as [r g].
    cbn [fst snd] in Hframe. cbn zeta in Hframe. destruct Hframe as (_ & Hp & _).
    injection Hstep as Hp'; subst p'. unfold with_monitor. cbn [player mem]. auto.
  - destruct (monitor p) as [| | |intensity|new_intensity|h]; try discriminate;
      injection Hstep as Hp; subst p'; unfold with_monitor; cbn [player mem].
    + auto.
    + destruct (deposit_frame new_intensity (mem p)) as (_ & Hp & _). auto.
  - destruct (monitor p) as [| | | | |h]; try discriminate.
    destruct (handler_statement_frame h (mem p)) as (_ & _ & Hp & _). cbn zeta in Hp.
    destruct h; injection Hstep as Hp'; subst p'; unfold with_monitor;
      cbn in Hp |- *; auto.
Qed.

(** A step of the player thread leaves the main thread where it is and
    writes neither [debug], [running] nor the condition variable. *)
Lemma player_step_frame (p p' : process) (a : action) :
  step log cfg p a = Some p' -> player_action a = true ->
  monitor p' = monitor p
  /\ debug (mem p') = debug (mem p)
  /\ cond_calls (mem p') = cond_calls (mem p)
  /\ running (mem p') = running (mem p).
Proof.
  intros Hstep Ha. step_cases Hstep; try discriminate Ha.
  - assert (Hlocked : debug (snd (player_locked (mem p))) = debug (mem p)
                      /\ cond_calls (snd (player_locked (mem p))) = cond_calls (mem p)
                      /\ running (snd (player_locked (mem p))) = running (mem p)).
    { destruct (player_locked_cases (mem p)) as [H|[H|(_ & _ & H)]];
        rewrite H; cbn; auto. }
    destruct (player p); try discriminate; injection Hstep as Hp; subst p';
      unfold with_player; cbn [monitor mem].
    + destruct (player_loop_head_cases (mem p)) as [H|H]; rewrite H; cbn [snd]; auto.
    + auto.
  - destruct (player p) as [| |intensity| |]; try discriminate.
    injection Hstep as Hp; subst p'.
    destruct (player_plays_frame cfg intensity status (mem p)) as (_ & _ & _ & _ & Hr).
    destruct (player_plays_mem cfg intensity status (mem p)) as [Hd Hc].
    cbn zeta in Hr. unfold with_player. cbn [monitor mem]. auto.
  - destruct (cancel_requested p && at_cancellation_point cfg (player p)); [|discriminate].
    injection Hstep as Hp; subst p'. cbn. auto.
Qed.

(** No step sets [running] back to true. *)
Lemma step_keeps_running_false (p p' : process) (a : action) :
  step log cfg p a = Some p' -> running (mem p) = false -> running (mem p') = false.
Proof.
  intros Hstep Hrun.
  destruct (player_action a) eqn:Ha.
  - destruct (player_step_frame p p' a Hstep Ha) as (_ & _ & _ & Hr). congruence.
  - step_cases Hstep; try discriminate Ha.
    + destruct (monitor p); try discriminate. rewrite Hrun in Hstep. discriminate.
    + destruct (monitor p); try discriminate. rewrite Hrun in Hstep.
      injection Hstep as Hp; subst p'. exact Hrun.
    + destruct (monitor p); try discriminate.
      destruct (player_terminated (player p)); [|discriminate].
      injection Hstep as Hp; subst p'. exact Hrun.
    + destruct (sigint_ignored cfg (player p)); [injection Hstep as Hp; subst p'; auto|].
      destruct (monitor p); try discriminate; injection Hstep as Hp; subst p'; auto.
    + destruct (monitor p); try discriminate. rewrite Hrun in Hstep. discriminate.
    + destruct (monitor p) as [| | |intensity|new_intensity|h]; try discriminate;
        injection Hstep as Hp; subst p'; unfold with_monitor; cbn [mem].
      * exact Hrun.
      * destruct (deposit_frame new_intensity (mem p)) as (_ & _ & Hr & _). congruence.
    + destruct (monitor p) as [| | | | |h]; try discriminate.
      destruct (handler_statement_frame h (mem p)) as (_ & _ & _ & Hr & _).
      cbn zeta in Hr.
      destruct h; injection Hstep as Hp'; subst p'; unfold with_monitor;
        cbn in Hr |- *; congruence.
Qed.

(** X5. [is_playing] is true exactly while the player thread is inside
    [play_sound_file]: in every state the process reaches, it is false when
    the player is at the head of its loop or waiting on [cond], and true
    when the player is playing. *)
Theorem is_playing_tracks_player (p : process) :
  reachable log cfg debug_enabled p -> busy_flag_ok p.
Proof.
  induction 1 as [|p a p' Hreach IH Hstep]; [reflexivity|].
  destruct (player_action a) eqn:Ha.
  - step_cases Hstep; try discriminate Ha.
    + assert (Hlocked : (player p = PlayerLoop \/ player p = PlayerWaiting) ->
                        busy_flag_ok (with_player p (player_locked (mem p)))).
      { intros Hpc. assert (Hidle : is_playing (mem p) = false).
        { unfold busy_flag_ok in IH. destruct Hpc as [Hpc|Hpc]; rewrite Hpc in IH; exact IH. }
        destruct (player_locked_cases (mem p)) as [H|[H|(_ & _ & H)]];
          rewrite H; unfold busy_flag_ok; cbn; auto. }
      destruct (player p) eqn:Hpc; try discriminate;
        injection Hstep as Hp; subst p'.
      * destruct (player_loop_head_cases (mem p)) as [H|H]; rewrite H;
          [auto|exact I].
      * auto.
    + destruct (player p) as [| |intensity| |]; try discriminate.
      injection Hstep as Hp; subst p'.
      destruct (player_plays_frame cfg intensity status (mem p)) as (_ & Hpc & Hidle & _).
      cbn zeta in *. unfold busy_flag_ok, with_player. cbn [player mem].
      rewrite Hpc. exact Hidle.
    + destruct (cancel_requested p && at_cancellation_point cfg (player p)); [|discriminate].
      injection Hstep as Hp; subst p'. exact I.
  - destruct (monitor_step_frame p p' a Hstep Ha) as [Hpc Hidle].
    unfold busy_flag_ok in *. rewrite Hpc, Hidle. exact IH.
Qed.

(** X6. The player thread leaves its loop by [return NULL] only after the
    SIGINT handler has executed [running = false]: in every state the
    process reaches in which the player has returned, [running] is false
    and the main thread is inside [handle_signal], past that assignment.
    So as long as [running] is true the player is at its loop head,
    waiting, playing, or has been cancelled. *)
Theorem player_returns_only_after_sigint (p : process) :
  reachable log cfg debug_enabled p ->
  player p = PlayerReturned ->
  running (mem p) = false /\ running_cleared (monitor p) = true.
Proof.
  intros Hreach Hpc.
  assert (Hrun : running (mem p) = false).
  { induction Hreach as [|p a p' Hreach IH Hstep]; [discriminate|].
    destruct (player_action a) eqn:Ha.
    - destruct (running (mem p)) eqn:Hrun.
      + exfalso. step_cases Hstep; try discriminate Ha.
        * destruct (player p); try discriminate; injection Hstep as Hp; subst p';
            unfold with_player in Hpc; cbn [player] in Hpc;
            rewrite ?player_loop_head_running in Hpc by exact Hrun;
            exact (player_locked_running (mem p) Hrun Hpc).
        * destruct (player p) as [| |intensity| |]; try discriminate.
          injection Hstep as Hp; subst p'.
          destruct (player_plays_frame cfg intensity status (mem p)) as (_ & Hloop & _).
          cbn zeta in Hloop. unfold with_player in Hpc. cbn [player] in Hpc.
          rewrite Hloop in Hpc. discriminate.
        * destruct (cancel_requested p && at_cancellation_point cfg (player p));
            [|discriminate].
          injection Hstep as Hp; subst p'. discriminate.
      + exact (step_keeps_running_false p p' a Hstep Hrun).
    - destruct (monitor_step_frame p p' a Hstep Ha) as [Hsame _].
      rewrite Hsame in Hpc.
      exact (step_keeps_running_false p p' a Hstep (IH Hpc)). }
  split; [exact Hrun|].
  rewrite (proj1 (reachable_running log cfg debug_enabled p Hreach)) in Hrun.
  destruct (running_cleared (monitor p)); [reflexivity|discriminate].
Qed.

Lemma count_level_ahead (level : Z) (d d0 : debug_stats) :
  1 <= level <= NUM_INTENSITY_LEVELS ->
  intensity_counts d = intensity_counts d0 ->
  total_movements d = total_movements d0 ->
  histogram_ok d0 -> histogram_ahead (count_level level d).
Proof.
  unfold NUM_INTENSITY_LEVELS. intros Hlevel Hcounts Htotal (Hlen & Hzero & Hsum).
  unfold histogram_ahead, count_level. cbn. rewrite Hcounts, Htotal.
  split; [rewrite incr_nth_length; exact Hlen|]. split.
  - rewrite incr_nth_head by lia. exact Hzero.
  - rewrite incr_nth_sum by lia. rewrite <- Hsum, wrap_long_add_l. reflexivity.
Qed.

Lemma count_total_ok (d : debug_stats) :
  histogram_ahead d -> histogram_ok (count_total d).
Proof.
  intros (Hlen & Hzero & Hsum). unfold histogram_ok, count_total. cbn. auto.
Qed.

Lemma histogram_ok_same (d d0 : debug_stats) :
  intensity_counts d = intensity_counts d0 ->
  total_movements d = total_movements d0 ->
  histogram_ok d0 -> histogram_ok d.
Proof.
  unfold histogram_ok. intros Hc Ht. rewrite Hc, Ht. auto.
Qed.

(** X7. The histogram is never written out of bounds, and the statistics
    are consistent except between the two increments: in every state the
    process reaches, [debug.intensity_counts] has its 11 slots and slot 0 is
    0; the slots add up to [debug.total_movements] (in [long] arithmetic)
    while the main thread is in its loop outside [calculate_intensity] or
    has left it, and to one more between [debug.intensity_counts[intensity]++]
    and [debug.total_movements++]; the handler, which may interrupt
    [calculate_intensity] there, sees one or the other. *)
Theorem histogram_adds_up_or_is_one_ahead (p : process) :
  reachable log cfg debug_enabled p -> histogram_inv p.
Proof.
  induction 1 as [|p a p' Hreach IH Hstep].
  - unfold histogram_inv, histogram_ok. cbn. repeat split.
  - destruct (player_action a) eqn:Ha.
    + destruct (player_step_frame p p' a Hstep Ha) as (Hmon & Hd & _).
      unfold histogram_inv in *. rewrite Hmon, Hd. exact IH.
    + unfold histogram_inv in *. step_cases Hstep; try discriminate Ha.
      * destruct (monitor p) eqn:Hmon; try discriminate.
        destruct (running (mem p)); [|discriminate].
        injection Hstep as Hp; subst p'. unfold with_mem. cbn [monitor mem].
        rewrite Hmon. apply monitor_event_debug. exact IH.
      * destruct (monitor p); try discriminate.
        injection Hstep as Hp; subst p'. cbn [monitor mem].
        destruct (running (mem p)); exact IH.
      * destruct (monitor p); try discriminate.
        destruct (player_terminated (player p)); [|discriminate].
        injection Hstep as Hp; subst p'. exact IH.
      * destruct (sigint_ignored cfg (player p)); [injection Hstep as Hp; subst p'; exact IH|].
        destruct (monitor p) eqn:Hmon; try discriminate; injection Hstep as Hp; subst p';
          unfold with_monitor; cbn [monitor mem]; rewrite ?Hmon; auto.
      * destruct (monitor p) eqn:Hmon; try discriminate.
        destruct (running (mem p)); [|discriminate].
        destruct (motion_sample ev) as [[dx dy]|];
          [|injection Hstep as Hp; subst p'; rewrite Hmon; exact IH].
        pose proof (calculate_intensity_begin_frame log cfg dx dy (mem p)) as Hframe.
        destruct (calculate_intensity_begin log cfg dx dy (mem p)) as [r g].
        cbn [fst snd] in Hframe. cbn zeta in Hframe.
        destruct Hframe as (_ & _ & _ & _ & Hr).
        injection Hstep as Hp; subst p'. unfold with_monitor. cbn [monitor mem].
        destruct r as [intensity|new_intensity].
        -- destruct Hr as (Hlevel & d & Hd & Hc & Ht). rewrite Hd.
           exact (count_level_ahead intensity d (debug (mem p)) Hlevel Hc Ht IH).
        -- destruct Hr as (_ & Hc & Ht).
           exact (histogram_ok_same _ _ Hc Ht IH).
      * destruct (monitor p) as [| | |intensity|new_intensity|h]; try discriminate;
          injection Hstep as Hp; subst p'; unfold with_monitor; cbn [monitor mem].
        -- apply count_total_ok. exact IH.
        -- destruct (deposit_frame new_intensity (mem p)) as (Hd & _).
           rewrite Hd. exact IH.
      * destruct (monitor p) as [| | | | |h]; try discriminate.
        destruct (handler_statement_frame h (mem p)) as (Hd & _). cbn zeta in Hd.
        destruct h; injection Hstep as Hp'; subst p'; unfold with_monitor;
          cbn in Hd |- *; rewrite ?Hd; exact IH.
Qed.

End Invariants.

Lemma process_playing_reachable :
  reachable log_sample default_settings false process_playing.
Proof.
  apply (reachable_step _ _ _ process_pending PlayerRuns); [|reflexivity].
  apply (reachable_step _ _ _ (process_init false) (ReadEvent (rel_x 200)));
    [apply reachable_init|reflexivity].
Qed.

Lemma run_reachable (log : double -> double) (cfg : settings) (debug_enabled : bool)
    (actions : list action) :
  forall p p', reachable log cfg debug_enabled p -> run log cfg actions p = Some p' ->
               reachable log cfg debug_enabled p'.
Proof.
  induction actions as [|a actions IH]; intros p p' Hreach Hrun; cbn [run] in Hrun.
  - injection Hrun as Hp; subst p'. exact Hreach.
  - destruct (step log cfg p a) as [p1|] eqn:Hstep; [|discriminate].
    exact (IH p1 p' (reachable_step _ _ _ p a p1 Hreach Hstep) Hrun).
Qed.

Lemma process_returned_reachable :
  reachable log_sample default_settings false process_returned.
Proof.
  apply (run_reachable _ _ _ [Sigint; HandlerRuns; HandlerRuns; PlayerRuns]
           (process_init false)); [apply reachable_init|reflexivity].
Qed.

Lemma process_interrupted_reachable :
  reachable log_sample default_settings false process_interrupted.
Proof.
  apply (run_reachable _ _ _ [ReadReturns (rel_x 10); Sigint] (process_init false));
    [apply reachable_init|reflexivity].
Qed.

Lemma process_stopping_reachable :
  reachable log_sample default_settings false process_stopping.
Proof.
  apply (run_reachable _ _ _ [Sigint; HandlerRuns; HandlerRuns; HandlerRuns]
           (process_init false)); [apply reachable_init|reflexivity].
Qed.

Lemma is_playing_tracks_player_witness :
  player process_playing = PlayerPlaying 10
  /\ busy_flag_ok process_playing.
Proof.
  split; [reflexivity|].
  exact (is_playing_tracks_player log_sample default_settings false process_playing
           process_playing_reachable).
Defined.

Lemma player_returns_only_after_sigint_witness :
  player process_returned = PlayerReturned
  /\ running (mem process_returned) = false
  /\ running_cleared (monitor process_returned) = true.
Proof.
  split; [reflexivity|].
  exact (player_returns_only_after_sigint log_sample default_settings false
           process_returned process_returned_reachable eq_refl).
Defined.

(** The handler can see the statistics between the two increments: SIGINT
    arrives when [calculate_intensity] has counted the level of [REL_X 10]
    and not yet the movement. *)
Example sigint_between_increments :
  monitor process_interrupted = MonitorHandling HandlerPrintf
  /\ long_sum (intensity_counts (debug (mem process_interrupted))) = 1
  /\ total_movements (debug (mem process_interrupted)) = 0.
Proof. repeat split. Qed.

Lemma histogram_adds_up_or_is_one_ahead_witness :
  histogram_inv process_interrupted.
Proof.
  exact (histogram_adds_up_or_is_one_ahead log_sample default_settings false
           process_interrupted process_interrupted_reachable).
Defined.

(** ** The condition variable and the end of the process *)

Section Shutdown.

Variable log : double -> double.
Variable cfg : settings.

Lemma not_in_app_signal (calls : list cond_call) :
  ~ In CondBroadcast calls -> ~ In CondBroadcast (calls ++ [CondSignal]).
Proof.
  intros H Hin. apply in_app_or in Hin. destruct Hin as [Hin|[Hin|[]]].
  - exact (H Hin).
  - discriminate.
Qed.

Lemma reachable_broadcast_inv (debug_enabled : bool) (p : process) :
  reachable log cfg debug_enabled p -> broadcast_inv p.
Proof.
  induction 1 as [|p a p' Hreach IH Hstep].
  - unfold broadcast_inv. cbn. intros [].
  - destruct (player_action a) eqn:Ha.
    + destruct (player_step_frame log cfg p p' a Hstep Ha) as (Hmon & _ & Hc & _).
      unfold broadcast_inv in *. rewrite Hmon, Hc. exact IH.
    + unfold broadcast_inv in *.
      apply step_from_running in Hstep. destruct Hstep as [Hlive Hstep].
      destruct a; cbn [step_running] in Hstep; try discriminate Ha.
      * destruct (monitor p) eqn:Hmon; try discriminate.
        destruct (running (mem p)); [|discriminate].
        injection Hstep as Hp; subst p'. unfold with_mem. cbn [monitor mem].
        rewrite Hmon. cbn [broadcast_made] in *.
        destruct (monitor_event_frame log cfg ev (mem p)) as [_ [Hc|Hc]];
          cbn zeta in Hc; rewrite Hc; [exact IH|apply not_in_app_signal; exact IH].
      * destruct (monitor p); try discriminate.
        injection Hstep as Hp; subst p'. cbn [monitor mem broadcast_made] in *.
        destruct (running (mem p)); exact IH.
      * destruct (monitor p); try discriminate.
        destruct (player_terminated (player p)); [|discriminate].
        injection Hstep as Hp; subst p'. exact IH.
      * destruct (sigint_ignored cfg (player p)); [injection Hstep as Hp; subst p'; exact IH|].
        destruct (monitor p) eqn:Hmon; try discriminate; injection Hstep as Hp; subst p';
          unfold with_monitor; cbn [monitor mem]; rewrite ?Hmon; exact IH.
      * destruct (monitor p) eqn:Hmon; try discriminate.
        destruct (running (mem p)); [|discriminate].
        destruct (motion_sample ev) as [[dx dy]|];
          [|injection Hstep as Hp; subst p'; rewrite Hmon; exact IH].
        pose proof (calculate_intensity_begin_frame log cfg dx dy (mem p)) as Hframe.
        destruct (calculate_intensity_begin log cfg dx dy (mem p)) as [r g].
        cbn [fst snd] in Hframe. cbn zeta in Hframe.
        destruct Hframe as (_ & _ & _ & Hc & _).
        injection Hstep as Hp; subst p'. unfold with_monitor. cbn [monitor mem].
        rewrite Hc. destruct r; exact IH.
      * destruct (monitor p) as [| | |intensity|new_intensity|h]; try discriminate;
          injection Hstep as Hp; subst p'; unfold with_monitor;
          cbn [monitor mem broadcast_made] in *.
        -- exact IH.
        -- destruct (deposit_calls new_intensity (mem p)) as [(_ & _ & Hc)|(_ & Hc)];
             rewrite Hc; [exact IH|apply not_in_app_signal; exact IH].
      * destruct (monitor p) as [| | | | |h]; try discriminate.
        destruct (handler_statement_frame h (mem p)) as (_ & _ & _ & _ & Hc).
        cbn zeta in Hc.
        destruct h; injection Hstep as Hp'; subst p'; unfold with_monitor;
          cbn in Hc, IH |- *; rewrite ?Hc; try exact IH.
        exists (cond_calls (mem p)). auto.
Qed.

(** X8. [pthread_cond_broadcast] is called by the SIGINT handler and by
    nothing else.  In every state the process reaches: as long as [running]
    is true no broadcast has been made (the monitor only signals); and a
    broadcast has been made exactly when the main thread is inside
    [handle_signal], past its [pthread_cond_broadcast]: [running] is then
    false and that broadcast is the last call made on [cond], the only one
    of its kind. *)
Theorem broadcast_only_by_sigint_handler (debug_enabled : bool) (p : process) :
  reachable log cfg debug_enabled p ->
  (running (mem p) = true -> ~ In CondBroadcast (cond_calls (mem p)))
  /\ (broadcast_made (monitor p) = false -> ~ In CondBroadcast (cond_calls (mem p)))
  /\ (broadcast_made (monitor p) = true ->
      running (mem p) = false
      /\ exists calls,
           cond_calls (mem p) = calls ++ [CondBroadcast]
           /\ ~ In CondBroadcast calls).
Proof.
  intros Hreach.
  pose proof (reachable_broadcast_inv debug_enabled p Hreach) as Hinv.
  pose proof (proj1 (reachable_running log cfg debug_enabled p Hreach)) as Hrun.
  unfold broadcast_inv in Hinv.
  destruct (broadcast_made (monitor p)) eqn:Hmade.
  - assert (Hcleared : running_cleared (monitor p) = true).
    { destruct (monitor p) as [| | | | |[]]; try discriminate; reflexivity. }
    rewrite Hcleared in Hrun. cbn in Hrun.
    split; [rewrite Hrun; discriminate|]. split; [discriminate|].
    intros _. split; [exact Hrun|exact Hinv].
  - split; [intros _; exact Hinv|]. split; [intros _; exact Hinv|discriminate].
Qed.

(** One more action in front of a schedule. *)
Lemma can_finish_step (n : nat) (p p1 : process) (a : action) :
  step log cfg p a = Some p1 -> can_finish log cfg n p1 -> can_finish log cfg (S n) p.
Proof.
  intros Hstep (actions & p' & Hlen & Hrun & Hrest).
  exists (a :: actions), p'. cbn [run length]. rewrite Hstep.
  split; [lia|]. split; assumption.
Qed.

Lemma can_finish_more (n m : nat) (p : process) :
  (n <= m)%nat -> can_finish log cfg n p -> can_finish log cfg m p.
Proof.
  intros Hle (actions & p' & Hlen & Hrest).
  exists actions, p'. split; [lia|exact Hrest].
Qed.

Lemma finish_terminated (p : process) :
  joining p -> player_terminated (player p) = true -> can_finish log cfg 1 p.
Proof.
  intros (Hlive & Hmon & _ & _) Hterm.
  eexists [JoinReturns], _. cbn [run length]. unfold step.
  rewrite Hlive. cbn [step_running]. rewrite Hmon, Hterm.
  split; [lia|]. split; [reflexivity|]. cbn. auto.
Qed.

Lemma finish_at_cancellation_point (p : process) :
  joining p -> at_cancellation_point cfg (player p) = true -> can_finish log cfg 2 p.
Proof.
  intros (Hlive & Hmon & Hcancel & Hrun) Hpoint.
  apply (can_finish_step 1 p (with_player p (PlayerCancelled, mem p)) PlayerCancels).
  - unfold step. rewrite Hlive. cbn [step_running]. rewrite Hcancel, Hpoint. reflexivity.
  - apply finish_terminated; [|reflexivity].
    unfold joining, with_player. cbn. auto.
Qed.

Lemma finish_from_loop_empty (p : process) :
  joining p -> player p = PlayerLoop -> current_intensity (mem p) = 0 ->
  can_finish log cfg 3 p.
Proof.
  intros (Hlive & Hmon & Hcancel & Hrun) Hpc Hcur.
  assert (Hwait : player_loop_head (mem p) = (PlayerWaiting, mem p)).
  { rewrite player_loop_head_running by exact Hrun.
    unfold player_locked. run_prog. rewrite Hcur, Hrun. reflexivity. }
  apply (can_finish_step 2 p (with_player p (PlayerWaiting, mem p)) PlayerRuns).
  - unfold step. rewrite Hlive. cbn [step_running]. rewrite Hpc, Hwait. reflexivity.
  - apply finish_at_cancellation_point; [|reflexivity].
    unfold joining, with_player. cbn. auto.
Qed.

Lemma finish_from_playing_empty (p : process) (intensity : Z) :
  joining p -> player p = PlayerPlaying intensity -> current_intensity (mem p) = 0 ->
  can_finish log cfg 4 p.
Proof.
  intros Hjoin Hpc Hcur.
  destruct (no_sound cfg) eqn:Hquiet.
  - destruct Hjoin as (Hlive & Hmon & Hcancel & Hrun).
    destruct (player_plays_frame cfg intensity 0 (mem p)) as (_ & Hloop & _ & Hc & Hr).
    cbn zeta in *.
    apply (can_finish_step 3 p (with_player p (player_plays cfg intensity 0 (mem p)))
             (PlaybackReturns 0)).
    + unfold step. rewrite Hlive. cbn [step_running]. rewrite Hpc. reflexivity.
    + apply finish_from_loop_empty.
      * unfold joining, with_player. cbn. rewrite Hr. auto.
      * exact Hloop.
      * unfold with_player. cbn [mem]. rewrite Hc. exact Hcur.
  - apply (can_finish_more 2); [lia|].
    apply finish_at_cancellation_point; [exact Hjoin|].
    rewrite Hpc. cbn. rewrite Hquiet. reflexivity.
Qed.

Lemma finish_from_loop (p : process) :
  joining p -> player p = PlayerLoop -> can_finish log cfg 5 p.
Proof.
  intros Hjoin Hpc.
  destruct (Z.eq_dec (current_intensity (mem p)) 0) as [Hcur|Hcur].
  - apply (can_finish_more 3); [lia|]. apply finish_from_loop_empty; assumption.
  - destruct Hjoin as (Hlive & Hmon & Hcancel & Hrun).
    assert (Htake : player_loop_head (mem p)
                    = (PlayerPlaying (current_intensity (mem p)),
                       set_is_playing true (set_current_intensity 0 (mem p)))).
    { rewrite player_loop_head_running by exact Hrun.
      unfold player_locked. run_prog. apply Z.eqb_neq in Hcur.
      rewrite Hcur, Hrun. reflexivity. }
    apply (can_finish_step 4 p (with_player p (player_loop_head (mem p))) PlayerRuns).
    + unfold step. rewrite Hlive. cbn [step_running]. rewrite Hpc. reflexivity.
    + rewrite Htake.
      apply (finish_from_playing_empty _ (current_intensity (mem p))); try reflexivity.
      unfold joining, with_player. cbn. auto.
Qed.

Lemma finish_from_joining (p : process) : joining p -> can_finish log cfg 6 p.
Proof.
  intros Hjoin. destruct (player p) as [| |intensity| |] eqn:Hpc.
  - apply (can_finish_more 5); [lia|]. apply finish_from_loop; assumption.
  - apply (can_finish_more 2); [lia|].
    apply finish_at_cancellation_point; [exact Hjoin|]. rewrite Hpc. reflexivity.
  - destruct (no_sound cfg) eqn:Hquiet.
    + destruct Hjoin as (Hlive & Hmon & Hcancel & Hrun).
      destruct (player_plays_frame cfg intensity 0 (mem p)) as (_ & Hloop & _ & _ & Hr).
      cbn zeta in *.
      apply (can_finish_step 5 p (with_player p (player_plays cfg intensity 0 (mem p)))
               (PlaybackReturns 0)).
      * unfold step. rewrite Hlive. cbn [step_running]. rewrite Hpc. reflexivity.
      * apply finish_from_loop; [|exact Hloop].
        unfold joining, with_player. cbn. rewrite Hr. auto.
    + apply (can_finish_more 2); [lia|].
      apply finish_at_cancellation_point; [exact Hjoin|].
      rewrite Hpc. cbn. rewrite Hquiet. reflexivity.
  - apply (can_finish_more 1); [lia|].
    apply finish_terminated; [exact Hjoin|]. rewrite Hpc. reflexivity.
  - apply (can_finish_more 1); [lia|].
    apply finish_terminated; [exact Hjoin|]. rewrite Hpc. reflexivity.
Qed.

(** X9. A read failure can always be followed through to the end: from every
    state the process reaches in which the monitor is still reading, the
    failed [read] reports the error, requests the cancellation of the
    player and, within at most six further steps of the player and the
    join, the process ends by the return of [main] with status 0, the
    player thread cancelled and joined. *)
Theorem read_failure_can_finish (debug_enabled : bool) (p : process) :
  reachable log cfg debug_enabled p ->
  exit_status p = None ->
  monitor p = MonitorReading ->
  exists p1,
    step log cfg p ReadFails = Some p1
    /\ printed (mem p1) = printed (mem p) ++ [ErrorReadingInputEvent]
    /\ cancel_requested p1 = true
    /\ can_finish log cfg 6 p1.
Proof.
  intros Hreach Hlive Hmon.
  pose proof (proj1 (reachable_running log cfg debug_enabled p Hreach)) as Hrun.
  rewrite Hmon in Hrun. cbn in Hrun.
  eexists. unfold step. rewrite Hlive. cbn [step_running]. rewrite Hmon, Hrun.
  split; [reflexivity|]. cbn. split; [reflexivity|]. split; [reflexivity|].
  apply finish_from_joining. unfold joining. cbn. auto.
Qed.

End Shutdown.

Lemma broadcast_only_by_sigint_handler_witness :
  broadcast_made (monitor process_stopping) = true
  /\ running (mem process_stopping) = false
  /\ exists calls,
       cond_calls (mem process_stopping) = calls ++ [CondBroadcast]
       /\ ~ In CondBroadcast calls.
Proof.
  split; [reflexivity|].
  exact (proj2 (proj2 (broadcast_only_by_sigint_handler log_sample default_settings false
                         process_stopping process_stopping_reachable)) eq_refl).
Defined.

Lemma read_failure_can_finish_witness :
  exists p1,
    step log_sample default_settings process_playing ReadFails = Some p1
    /\ printed (mem p1) = printed (mem process_playing) ++ [ErrorReadingInputEvent]
    /\ cancel_requested p1 = true
    /\ can_finish log_sample default_settings 6 p1.
Proof.
  exact (read_failure_can_finish log_sample default_settings false process_playing
           process_playing_reachable eq_refl eq_refl).
Defined.

(** ** Comparisons of doubles and the checks of [main] *)

Lemma SFcompare_antisym (x y : spec_float) :
  SFcompare y x = option_map CompOpp (SFcompare x y).
Proof.
  destruct x as [sx|sx| |sx mx ex]; destruct y as [sy|sy| |sy my ey]; cbn;
    try reflexivity;
    try (destruct sx; reflexivity); try (destruct sy; reflexivity);
    try (destruct sx, sy; reflexivity).
  destruct sx, sy; cbn; try reflexivity;
    rewrite (Z.compare_antisym ex ey); destruct (ex ?= ey); cbn; try reflexivity;
    change (Pos.compare_cont Eq) with Pos.compare;
    rewrite (Pos.compare_antisym mx my); destruct (mx ?= my)%positive; reflexivity.
Qed.

Lemma SFcompare_refl (x : spec_float) :
  SFcompare x x = match x with S754_nan => None | _ => Some Eq end.
Proof.
  destruct x as [s|s| |s m e]; cbn; try reflexivity.
  - destruct s; reflexivity.
  - destruct s; rewrite Z.compare_refl, Pos.compare_cont_refl; reflexivity.
Qed.

Lemma is_nan_spec (x : double) :
  PrimFloat.is_nan x = match Prim2SF x with S754_nan => true | _ => false end.
Proof.
  unfold PrimFloat.is_nan. rewrite FloatAxioms.eqb_spec. unfold SFeqb. rewrite SFcompare_refl.
  destruct (Prim2SF x); reflexivity.
Qed.

(** [!(a <= b)] holds when [b < a], and when one of the two is a NaN. *)
Lemma not_leb_iff (a b : double) :
  negb (a <=? b)%float = true
  <-> (b <? a)%float = true \/ PrimFloat.is_nan a = true \/ PrimFloat.is_nan b = true.
Proof.
  rewrite FloatAxioms.leb_spec, FloatAxioms.ltb_spec, !is_nan_spec. unfold SFleb, SFltb.
  rewrite (SFcompare_antisym (Prim2SF a) (Prim2SF b)).
  destruct (Prim2SF a) as [sa|sa| |sa ma ea] eqn:Ha;
    destruct (Prim2SF b) as [sb|sb| |sb mb eb] eqn:Hb;
    try (cbn; split; [intros _; auto|reflexivity]; fail);
    match goal with
    | |- context [SFcompare ?x ?y] => destruct (SFcompare x y) as [[| |]|] eqn:Hc
    end; cbn; split; try (intros H; discriminate H); auto;
    try (intros [H|[H|H]]; discriminate H);
    try reflexivity.
  all: try (exfalso; revert Hc; cbn; try destruct sa; try destruct sb; discriminate).
Qed.

(** X10. The three threshold checks of [main] let through exactly the settings
    with [min > 0], [max > min] and [base > 1], and the settings in which a
    compared value is a NaN: each check is written as a rejection of [<=],
    which a NaN never satisfies. *)
Theorem settings_accepted_iff (cfg : settings) :
  settings_accepted cfg = true
  <-> ((0 <? min_movement_threshold cfg)%float = true
       \/ PrimFloat.is_nan (min_movement_threshold cfg) = true)
      /\ ((min_movement_threshold cfg <? max_movement_threshold cfg)%float = true
          \/ PrimFloat.is_nan (max_movement_threshold cfg) = true
          \/ PrimFloat.is_nan (min_movement_threshold cfg) = true)
      /\ ((1 <? log_base cfg)%float = true
          \/ PrimFloat.is_nan (log_base cfg) = true).
Proof.
  unfold settings_accepted. rewrite !andb_true_iff, !not_leb_iff.
  assert (H0 : PrimFloat.is_nan 0 = false) by reflexivity.
  assert (H1 : PrimFloat.is_nan 1 = false) by reflexivity.
  rewrite H0, H1. split.
  - intros [[Hmin Hmax] Hbase]. repeat split.
    + destruct Hmin as [H|[H|H]]; auto. discriminate.
    + exact Hmax.
    + destruct Hbase as [H|[H|H]]; auto. discriminate.
  - intros (Hmin & Hmax & Hbase). repeat split.
    + destruct Hmin; auto.
    + exact Hmax.
    + destruct Hbase; auto.
Qed.

(** NaN thresholds pass the checks. *)
Example nan_settings_accepted : settings_accepted nan_settings = true.
Proof. reflexivity. Qed.

(** X11. No movement is level 1: with a minimum threshold accepted by [main]
    that is a number, the deltas (0, 0) take the below-threshold return, so
    the result is 1 for every [log], [log] is not applied to 0, and nothing
    is counted in the statistics. *)
Theorem zero_delta_is_lowest_level
    (log : double -> double) (cfg : settings) (g : globals) :
  settings_accepted cfg = true ->
  PrimFloat.is_nan (min_movement_threshold cfg) = false ->
  let r := calculate_intensity log cfg 0 0 g in
  fst r = 1
  /\ debug (snd r) = record_raw_movement 0%float (debug g).
Proof.
  intros Hacc Hnan.
  unfold settings_accepted in Hacc.
  apply andb_prop in Hacc. destruct Hacc as [Hacc _].
  apply andb_prop in Hacc. destruct Hacc as [Hmin _].
  apply not_leb_iff in Hmin.
  destruct Hmin as [Hmin|[Hmin|Hmin]];
    [|rewrite Hnan in Hmin; discriminate|discriminate Hmin].
  unfold calculate_intensity. run_prog.
  change (movement_of 0 0) with 0%float. rewrite Hmin.
  cbn. destruct (enabled (debug g)); cbn; auto.
Qed.

Lemma zero_delta_is_lowest_level_witness :
  fst (calculate_intensity log_sample default_settings 0 0 (globals_init false)) = 1.
Proof.
  exact (proj1 (zero_delta_is_lowest_level log_sample default_settings (globals_init false)
                  eq_refl eq_refl)).
Defined.

Lemma saturates_from_sound (fuel : nat) :
  forall v, saturates_from fuel v = true ->
  forall z, v <= z < v + Z.of_nat fuel -> saturates_ok z = true.
Proof.
  induction fuel as [|fuel IH]; intros v H z Hz.
  - cbn in Hz. lia.
  - cbn [saturates_from] in H. apply andb_prop in H. destruct H as [Hv Hrest].
    destruct (Z.eq_dec z v) as [->|Hne]; [exact Hv|].
    apply (IH (v + 1) Hrest). lia.
Qed.

Lemma saturates_checked : saturates_from (Z.to_nat 46240) 101 = true.
Proof. vm_compute. reflexivity. Qed.

(** X12. With the default thresholds, every delta on a single axis whose
    absolute value is between 101 and 46340 is mapped to level 10, on
    either axis, with either sign and for every [log]: the above-maximum
    return works for all deltas short of the overflow. *)
Theorem default_single_axis_saturates (log : double -> double) (v : Z) (g : globals) :
  100 < Z.abs v <= 46340 ->
  fst (calculate_intensity log default_settings v 0 g) = NUM_INTENSITY_LEVELS
  /\ fst (calculate_intensity log default_settings 0 v g) = NUM_INTENSITY_LEVELS.
Proof.
  intros Hv.
  assert (Hok : saturates_ok (Z.abs v) = true).
  { apply (saturates_from_sound _ _ saturates_checked). rewrite Z2Nat.id; lia. }
  unfold saturates_ok in Hok. apply andb_prop in Hok. destruct Hok as [Hmin Hmax].
  apply negb_true_iff in Hmin.
  destruct (movement_single_axis v) as [Hx Hy]; [lia|].
  rewrite !calculate_intensity_value.
  split; apply intensity_above_max; rewrite ?Hx, ?Hy; assumption.
Qed.

Lemma default_single_axis_saturates_witness :
  fst (calculate_intensity log_sample default_settings (-101) 0 (globals_init false)) = 10
  /\ fst (calculate_intensity log_sample default_settings 0 (-101) (globals_init false)) = 10.
Proof.
  apply (default_single_axis_saturates log_sample (-101) (globals_init false)).
  cbn. lia.
Defined.

(** ** Strings and [snprintf] *)

Lemma string_length_append (a b : string) :
  String.length (a ++ b) = (String.length a + String.length b)%nat.
Proof.
  induction a as [|c a IH]; cbn; [reflexivity|]. rewrite IH. reflexivity.
Qed.

Lemma substring_whole (s : string) (n : nat) :
  (String.length s <= n)%nat -> substring 0 n s = s.
Proof.
  revert n. induction s as [|c s IH]; intros n Hn.
  - destruct n; reflexivity.
  - destruct n as [|n]; cbn in Hn; [lia|]. cbn. rewrite IH by lia. reflexivity.
Qed.

Lemma snprintf_fits (size : nat) (text : string) :
  (String.length text < size)%nat -> snprintf size text = text.
Proof.
  intros H. unfold snprintf. apply substring_whole. lia.
Qed.

Lemma append_inj_l (a b c : string) : (a ++ b = a ++ c)%string -> b = c.
Proof.
  induction a as [|x a IH]; cbn; intros H; [exact H|].
  inversion H. auto.
Qed.

Lemma NoDup_map_injective {A B} (f : A -> B) (l : list A) :
  (forall a b, f a = f b -> a = b) -> NoDup l -> NoDup (map f l).
Proof.
  intros Hinj Hnd. induction Hnd as [|x l Hx _ IH]; cbn; constructor; [|exact IH].
  intros Hin. apply in_map_iff in Hin. destruct Hin as (y & Hy & Hl).
  apply Hinj in Hy. subst y. exact (Hx Hl).
Qed.

Lemma levels_cases (i : Z) :
  1 <= i <= NUM_INTENSITY_LEVELS -> In i levels.
Proof.
  unfold NUM_INTENSITY_LEVELS, levels. intros H. cbn.
  assert (i = 1 \/ i = 2 \/ i = 3 \/ i = 4 \/ i = 5 \/ i = 6 \/ i = 7 \/ i = 8
          \/ i = 9 \/ i = 10) by lia.
  intuition auto.
Qed.

Lemma levels_range (i : Z) : In i levels -> 1 <= i <= NUM_INTENSITY_LEVELS.
Proof.
  unfold NUM_INTENSITY_LEVELS, levels. cbn. intuition lia.
Qed.

Lemma decimal_level_length (i : Z) :
  In i levels -> (String.length (decimal i) <= 2)%nat.
Proof.
  unfold levels. cbn [In]. intros H.
  repeat (destruct H as [H|H]; [subst i; cbn; lia|]). contradiction.
Qed.

(** For a directory path of at most 4088 characters nothing is cut. *)
Lemma wav_path_fits (dir_path : string) (i : Z) :
  (String.length dir_path <= 4088)%nat -> In i levels ->
  wav_path dir_path i = (dir_path ++ "/" ++ decimal i ++ ".wav")%string.
Proof.
  intros Hlen Hi. unfold wav_path. apply snprintf_fits.
  pose proof (decimal_level_length i Hi) as Hd.
  rewrite !string_length_append. unfold PATH_MAX. cbn. lia.
Qed.

Lemma wav_paths_fit (dir_path : string) :
  (String.length dir_path <= 4088)%nat ->
  map (wav_path dir_path) levels
  = map (fun i => dir_path ++ "/" ++ decimal i ++ ".wav")%string levels.
Proof.
  intros Hlen. apply map_ext_in. intros i Hi. apply wav_path_fits; assumption.
Qed.

(** ** The sound directory *)

Lemma validate_loop_spec (fs : filesystem) (dir_path : string) (n : nat) :
  forall i missing err,
    validate_loop fs dir_path n i missing err
    = (missing || existsb (unreadable fs) (map (wav_path dir_path) (zseq i n)),
       err ++ map MissingSoundFile
                (filter (unreadable fs) (map (wav_path dir_path) (zseq i n)))).
Proof.
  induction n as [|n IH]; intros i missing err; cbn [validate_loop zseq map existsb filter].
  - rewrite orb_false_r, app_nil_r. reflexivity.
  - unfold unreadable at 1 3.
    destruct (fs_readable fs (wav_path dir_path i)); cbn [negb orb]; rewrite IH.
    + reflexivity.
    + rewrite orb_true_r. cbn [map]. rewrite <- app_assoc. reflexivity.
Qed.

Lemma validate_sound_directory_spec (fs : filesystem) (dir_path : string) :
  fs_stat fs dir_path = Some true ->
  let missing := filter (unreadable fs) (map (wav_path dir_path) levels) in
  validate_sound_directory fs dir_path
  = match missing with
    | [] => (true, [])
    | _ => (false, map MissingSoundFile missing ++ [MustContainWavFiles NUM_INTENSITY_LEVELS])
    end.
Proof.
  intros Hstat. unfold validate_sound_directory. rewrite Hstat.
  rewrite validate_loop_spec. cbn [orb app].
  change (zseq 1 (Z.to_nat NUM_INTENSITY_LEVELS)) with levels.
  cbn zeta.
  induction (map (wav_path dir_path) levels) as [|path paths IH]; [reflexivity|].
  cbn [existsb filter]. destruct (unreadable fs path); cbn [orb map]; [reflexivity|].
  exact IH.
Qed.

(** What [validate_sound_directory] answers, on the paths as the buffer
    holds them. *)
Lemma validate_sound_directory_true_spec (fs : filesystem) (dir_path : string) :
  (fst (validate_sound_directory fs dir_path) = true
   <-> fs_stat fs dir_path = Some true
       /\ forall i, 1 <= i <= NUM_INTENSITY_LEVELS ->
                    fs_readable fs (wav_path dir_path i) = true)
  /\ (fst (validate_sound_directory fs dir_path) = true ->
      snd (validate_sound_directory fs dir_path) = []).
Proof.
  destruct (fs_stat fs dir_path) as [[|]|] eqn:Hstat.
  - rewrite (validate_sound_directory_spec fs dir_path Hstat). cbn zeta.
    destruct (filter (unreadable fs) (map (wav_path dir_path) levels))
      as [|path paths] eqn:Hmissing.
    + split; [|reflexivity]. split; [intros _|reflexivity].
      split; [reflexivity|]. intros i Hi.
      destruct (fs_readable fs (wav_path dir_path i)) eqn:Hr; [reflexivity|].
      assert (Hin : In (wav_path dir_path i)
                       (filter (unreadable fs) (map (wav_path dir_path) levels))).
      { apply filter_In. split.
        - apply in_map. apply levels_cases. exact Hi.
        - unfold unreadable. rewrite Hr. reflexivity. }
      rewrite Hmissing in Hin. contradiction.
    + split; [|discriminate]. split; [discriminate|]. intros [_ Hall].
      assert (Hin : In path (filter (unreadable fs) (map (wav_path dir_path) levels))).
      { rewrite Hmissing. left. reflexivity. }
      apply filter_In in Hin. destruct Hin as [Hin Hun].
      apply in_map_iff in Hin. destruct Hin as (i & Hpath & Hi). subst path.
      unfold unreadable in Hun. rewrite (Hall i (levels_range i Hi)) in Hun.
      discriminate.
  - unfold validate_sound_directory. rewrite Hstat. cbn.
    split; [|discriminate]. split; [discriminate|]. intros [H _]. discriminate.
  - unfold validate_sound_directory. rewrite Hstat. cbn.
    split; [|discriminate]. split; [discriminate|]. intros [H _]. discriminate.
Qed.

(** X13. For a directory path of at most 4088 characters,
    [validate_sound_directory] returns true exactly when [stat] succeeds on
    the path, the path is a directory and each of the ten files
    [<dir>/1.wav] ... [<dir>/10.wav] is readable; when it returns true it
    has printed nothing. *)
Theorem validate_sound_directory_true_iff (fs : filesystem) (dir_path : string) :
  (String.length dir_path <= 4088)%nat ->
  (fst (validate_sound_directory fs dir_path) = true
   <-> fs_stat fs dir_path = Some true
       /\ forall i, 1 <= i <= NUM_INTENSITY_LEVELS ->
                    fs_readable fs (dir_path ++ "/" ++ decimal i ++ ".wav")%string = true)
  /\ (fst (validate_sound_directory fs dir_path) = true ->
      snd (validate_sound_directory fs dir_path) = []).
Proof.
  intros Hlen.
  destruct (validate_sound_directory_true_spec fs dir_path) as [Hiff Hquiet].
  split; [|exact Hquiet].
  rewrite Hiff. split; intros [Hstat Hall]; (split; [exact Hstat|]); intros i Hi.
  - rewrite <- (wav_path_fits dir_path i Hlen (levels_cases i Hi)). exact (Hall i Hi).
  - rewrite (wav_path_fits dir_path i Hlen (levels_cases i Hi)). exact (Hall i Hi).
Qed.

Lemma validate_sound_directory_true_iff_witness :
  fst (validate_sound_directory fs_complete "moans") = true
  <-> fs_stat fs_complete "moans" = Some true
      /\ forall i, 1 <= i <= NUM_INTENSITY_LEVELS ->
                   fs_readable fs_complete ("moans" ++ "/" ++ decimal i ++ ".wav")%string
                   = true.
Proof.
  exact (proj1 (validate_sound_directory_true_iff fs_complete "moans"
                  ltac:(cbn; lia))).
Defined.

(** X14. In a directory whose path has at most 4088 characters, every
    missing or unreadable file is reported, not only the first: the lines
    written are one [MissingSoundFile] per unreadable file among
    [<dir>/1.wav] ... [<dir>/10.wav], in increasing order of the level,
    followed by the closing line when there is at least one; and the
    result is false exactly when there is one. *)
Theorem validate_sound_directory_reports_all (fs : filesystem) (dir_path : string) :
  (String.length dir_path <= 4088)%nat ->
  fs_stat fs dir_path = Some true ->
  let missing :=
    filter (unreadable fs)
      (map (fun i => dir_path ++ "/" ++ decimal i ++ ".wav")%string levels) in
  snd (validate_sound_directory fs dir_path)
  = map MissingSoundFile missing
    ++ (if fst (validate_sound_directory fs dir_path) then []
        else [MustContainWavFiles NUM_INTENSITY_LEVELS])
  /\ (fst (validate_sound_directory fs dir_path) = false <-> missing <> []).
Proof.
  intros Hlen Hstat. rewrite (validate_sound_directory_spec fs dir_path Hstat). cbn zeta.
  rewrite (wav_paths_fit dir_path Hlen).
  destruct (filter (unreadable fs)
              (map (fun i => dir_path ++ "/" ++ decimal i ++ ".wav")%string levels));
    cbn [fst snd].
  - split; [reflexivity|]. split; [discriminate|]. intros H. contradiction.
  - split; [reflexivity|]. split; [discriminate|reflexivity].
Qed.

Lemma validate_sound_directory_reports_all_witness :
  snd (validate_sound_directory fs_without_7 "moans")
  = [MissingSoundFile "moans/7.wav"; MustContainWavFiles 10].
Proof.
  exact (proj1 (validate_sound_directory_reports_all fs_without_7 "moans"
                  ltac:(cbn; lia) eq_refl)).
Defined.

(** X15. For a directory path of at most 4088 characters [sound_path_buffer]
    is large enough: the path examined for level [i] is the untruncated
    [<dir>/<i>.wav], and the ten paths examined are pairwise different. *)
Theorem wav_path_not_truncated (dir_path : string) :
  (String.length dir_path <= 4088)%nat ->
  (forall i, 1 <= i <= NUM_INTENSITY_LEVELS ->
             wav_path dir_path i = (dir_path ++ "/" ++ decimal i ++ ".wav")%string)
  /\ NoDup (map (wav_path dir_path) levels).
Proof.
  intros Hlen.
  assert (Hfit : forall i, In i levels ->
            wav_path dir_path i = (dir_path ++ "/" ++ decimal i ++ ".wav")%string).
  { intros i Hi. unfold wav_path. apply snprintf_fits.
    pose proof (decimal_level_length i Hi) as Hd.
    rewrite !string_length_append. unfold PATH_MAX. cbn. lia. }
  split; [intros i Hi; apply Hfit, levels_cases, Hi|].
  assert (Hmap : map (wav_path dir_path) levels
                 = map (fun i => dir_path ++ "/" ++ decimal i ++ ".wav")%string levels).
  { apply map_ext_in. exact Hfit. }
  rewrite Hmap.
  assert (Hsuffix : NoDup (map (fun i => "/" ++ decimal i ++ ".wav")%string levels)).
  { cbn. repeat constructor; cbn; intuition discriminate. }
  replace (map (fun i => dir_path ++ "/" ++ decimal i ++ ".wav")%string levels)
    with (map (append dir_path) (map (fun i => "/" ++ decimal i ++ ".wav")%string levels))
    by (rewrite map_map; reflexivity).
  apply NoDup_map_injective; [|exact Hsuffix].
  intros a b. apply append_inj_l.
Qed.

Lemma wav_path_not_truncated_witness :
  wav_path "moans" 7 = "moans/7.wav"%string.
Proof.
  apply (proj1 (wav_path_not_truncated "moans" ltac:(cbn; lia)) 7).
  unfold NUM_INTENSITY_LEVELS. lia.
Defined.

(** X16. The player asks only for files the start-up check has examined: if
    [validate_sound_directory] returned true for the sound directory, a
    path of at most 4088 characters, then in every state the process
    reaches, the level being played is between 1 and 10 and its file
    [<dir>/<level>.wav] was readable at the check. *)
Theorem played_file_was_validated
    (log : double -> double) (cfg : settings) (debug_enabled : bool)
    (fs : filesystem) (dir_path : string) (p : process) (level : Z) :
  (String.length dir_path <= 4088)%nat ->
  fst (validate_sound_directory fs dir_path) = true ->
  reachable log cfg debug_enabled p ->
  player p = PlayerPlaying level ->
  1 <= level <= NUM_INTENSITY_LEVELS
  /\ fs_readable fs (dir_path ++ "/" ++ decimal level ++ ".wav")%string = true.
Proof.
  intros Hlen Hvalid Hreach Hpc.
  destruct (reachable_channel_inv log cfg debug_enabled p Hreach) as (_ & Hplay & _).
  rewrite Hpc in Hplay. cbn in Hplay. split; [exact Hplay|].
  rewrite <- (wav_path_fits dir_path level Hlen (levels_cases level Hplay)).
  exact (proj2 (proj1 (proj1 (validate_sound_directory_true_spec fs dir_path)) Hvalid)
           level Hplay).
Qed.

Lemma played_file_was_validated_witness :
  1 <= 10 <= NUM_INTENSITY_LEVELS
  /\ fs_readable fs_complete ("moans" ++ "/" ++ decimal 10 ++ ".wav")%string = true.
Proof.
  exact (played_file_was_validated log_sample default_settings false fs_complete "moans"
           process_playing 10 ltac:(cbn; lia) eq_refl process_playing_reachable eq_refl).
Defined.

(** ** The device list *)

Lemma list_entry_fits (d : device_dir) (d_name : string) :
  (String.length d_name <= NAME_MAX)%nat ->
  list_entry d d_name
  = if prefix EVENT_PREFIX d_name then
      if dev_open d (event_path d_name) then
        match dev_name d (event_path d_name) with
        | Some device_name => [DeviceLine device_name (event_path d_name)]
        | None => []
        end
      else []
    else [].
Proof.
  unfold NAME_MAX. intros Hlen. unfold list_entry.
  fold (event_path d_name). rewrite snprintf_fits; [reflexivity|].
  unfold event_path, DEV_INPUT_PATH, DEVICE_PATH_MAX.
  rewrite !string_length_append. cbn. lia.
Qed.

(** X17. [list_input_devices] lists exactly the entries of /dev/input whose
    name begins with "event", that can be opened and that answer the name
    query, each with its untruncated path (the 300-byte buffer holds any
    name [readdir] can return): an entry that cannot be opened or whose
    name query fails is left out without a message, so the initial
    "Unknown Device" is never shown. *)
Theorem list_input_devices_lists_exactly (d : device_dir) (entries : list string) :
  dev_entries d = Some entries ->
  (forall d_name, In d_name entries -> (String.length d_name <= NAME_MAX)%nat) ->
  list_input_devices d = AvailableInputDevices :: Rule :: list_entries d entries
  /\ forall line,
       In line (list_entries d entries)
       <-> exists d_name device_name,
             In d_name entries
             /\ prefix EVENT_PREFIX d_name = true
             /\ dev_open d (event_path d_name) = true
             /\ dev_name d (event_path d_name) = Some device_name
             /\ line = DeviceLine device_name (event_path d_name).
Proof.
  intros Hentries Hlen. unfold list_input_devices. rewrite Hentries.
  split; [reflexivity|]. clear Hentries.
  induction entries as [|d_name rest IH]; intros line; cbn [list_entries].
  - split; [intros []|intros (n & _ & [] & _)].
  - assert (Hrest : forall n, In n rest -> (String.length n <= NAME_MAX)%nat).
    { intros n Hn. apply Hlen. right. exact Hn. }
    specialize (IH Hrest line).
    rewrite in_app_iff, IH, list_entry_fits by (apply Hlen; left; reflexivity).
    split.
    + intros [Hhere|(n & nm & Hin & Hrest')].
      * destruct (prefix EVENT_PREFIX d_name) eqn:Hp; [|contradiction].
        destruct (dev_open d (event_path d_name)) eqn:Ho; [|contradiction].
        destruct (dev_name d (event_path d_name)) as [nm|] eqn:Hn; [|contradiction].
        destruct Hhere as [Hline|[]]. exists d_name, nm.
        repeat split; auto. left. reflexivity.
      * exists n, nm. split; [right; exact Hin|exact Hrest'].
    + intros (n & nm & [Heq|Hin] & Hp & Ho & Hn & Hline).
      * subst n. left. rewrite Hp, Ho, Hn. left. symmetry. exact Hline.
      * right. exists n, nm. auto.
Qed.

Lemma list_input_devices_lists_exactly_witness :
  list_input_devices devices_sample
  = [AvailableInputDevices; Rule; DeviceLine "Mouse" "/dev/input/event0"].
Proof.
  refine (eq_trans
            (proj1 (list_input_devices_lists_exactly devices_sample
                      ["."; "mice"; "event0"; "event1"; "eventx"]%string eq_refl _))
            eq_refl).
  intros d_name Hin. cbn in Hin.
  repeat (destruct Hin as [Hin|Hin]; [subst d_name; cbn; unfold NAME_MAX; lia|]).
  contradiction.
Defined.

(** ** [main] *)

Section MainFacts.

Variable atof : string -> double.

Lemma main_option_proceeds (opt : cli_option) (v : main_vars) :
  (proceeds opt = true -> exists v', fst (main_option atof opt v) = inr v')
  /\ (proceeds opt = false ->
      main_option atof opt v
      = (inl (match opt with OptUnrecognised => 1 | _ => 0 end),
         [match opt with OptVersion => Version | _ => Usage end])).
Proof.
  destruct opt; cbn; split; intros H; try discriminate H; try reflexivity;
    eexists; reflexivity.
Qed.

(** What the option loop leaves in the variables when it runs to its end. *)
Lemma main_options_vars (opts : list cli_option) :
  forall v out v' out',
    main_options atof opts v out = (inr v', out') ->
    forallb proceeds opts = true
    /\ (forall device, device_path v' = Some device ->
          device_path v = Some device \/ In (OptInput device) opts)
    /\ (list_requested v' = false ->
          list_requested v = false /\ ~ In OptListDevices opts)
    /\ (no_sound (thresholds v) = true \/ In OptNoSound opts ->
          no_sound (thresholds v') = true).
Proof.
  induction opts as [|opt rest IH]; intros v out v' out' H; cbn [main_options] in H.
  - inversion H; subst. cbn. repeat split; auto. intros [Hn|[]]. exact Hn.
  - destruct (main_option atof opt v) as [[status|v1] lines] eqn:Hopt; [discriminate|].
    specialize (IH v1 (out ++ lines) v' out' H).
    destruct IH as (Hall & Hdev & Hlist & Hquiet).
    cbn [forallb In].
    destruct opt; cbn in Hopt; inversion Hopt; subst v1 lines; clear Hopt;
      cbn in Hdev, Hlist, Hquiet; cbn [proceeds returns_at_once negb andb];
      (split; [exact Hall|]);
      (split; [intros device Hd; destruct (Hdev device Hd) as [Hv|Hin];
               [try (left; exact Hv); try (inversion Hv; right; left; reflexivity)
               |right; right; exact Hin]|]);
      (split; [intros Hl; destruct (Hlist Hl) as [Hv Hn];
               try discriminate Hv;
               (split; [exact Hv|intros [Hc|Hc]; [discriminate Hc|exact (Hn Hc)]])|]);
      intros [Hn|[Hc|Hin]]; try discriminate Hc; auto.
Qed.

(** X18. [main] reaches [monitor_device] only after every check: no option
    made it return early, [-l] was not given, the device is the argument of
    an [-i] option, the thresholds pass the three checks, and the sound
    directory has been validated unless [-n] disabled the sound. *)
Theorem main_monitors_only_when_checked
    (fs : filesystem) (devices : device_dir) (opts : list cli_option)
    (device : string) (v : main_vars) (out : list main_line) :
  main atof fs devices opts = (MainMonitors device v, out) ->
  forallb proceeds opts = true
  /\ ~ In OptListDevices opts
  /\ In (OptInput device) opts
  /\ device_path v = Some device
  /\ settings_accepted (thresholds v) = true
  /\ (no_sound (thresholds v) = true
      \/ fst (validate_sound_directory fs (sound_directory v)) = true).
Proof.
  unfold main. intros H.
  destruct (main_options atof opts main_vars_init []) as [[status|v1] out1] eqn:Hopts;
    [discriminate|].
  destruct (main_options_vars opts _ _ _ _ Hopts) as (Hall & Hdev & Hlist & _).
  unfold main_checks in H.
  destruct (list_requested v1) eqn:Hl; [discriminate|].
  destruct (device_path v1) as [device1|] eqn:Hd; [|discriminate].
  assert (Hchecks :
    v = v1 /\ device = device1
    /\ settings_accepted (thresholds v1) = true
    /\ (no_sound (thresholds v1) = true
        \/ fst (validate_sound_directory fs (sound_directory v1)) = true)).
  { unfold settings_accepted.
    destruct (no_sound (thresholds v1)) eqn:Hn.
    - cbn in H.
      destruct (min_movement_threshold (thresholds v1) <=? 0)%float; [discriminate|].
      destruct (max_movement_threshold (thresholds v1)
                <=? min_movement_threshold (thresholds v1))%float; [discriminate|].
      destruct (log_base (thresholds v1) <=? 1)%float; [discriminate|].
      inversion H. auto.
    - destruct (validate_sound_directory fs (sound_directory v1)) as [valid err].
      destruct valid; cbn [negb] in H; [|discriminate].
      destruct (min_movement_threshold (thresholds v1) <=? 0)%float; [discriminate|].
      destruct (max_movement_threshold (thresholds v1)
                <=? min_movement_threshold (thresholds v1))%float; [discriminate|].
      destruct (log_base (thresholds v1) <=? 1)%float; [discriminate|].
      inversion H. auto. }
  destruct Hchecks as (-> & -> & Hacc & Hval).
  split; [exact Hall|]. split; [exact (proj2 (Hlist eq_refl))|].
  split; [|auto].
  destruct (Hdev device1 eq_refl) as [Hinit|Hin]; [discriminate Hinit|exact Hin].
Qed.

Lemma main_options_stop (pre : list cli_option) (opt : cli_option) (post : list cli_option) :
  forallb proceeds pre = true -> proceeds opt = false ->
  forall v out,
    main_options atof (pre ++ opt :: post) v out = main_options atof (pre ++ [opt]) v out
    /\ exists out',
         main_options atof (pre ++ opt :: post) v out
         = (inl (match opt with OptUnrecognised => 1 | _ => 0 end), out').
Proof.
  intros Hpre Hopt. induction pre as [|o pre IH]; intros v out.
  - cbn [app main_options].
    rewrite (proj2 (main_option_proceeds opt v) Hopt).
    split; [reflexivity|eexists; reflexivity].
  - cbn [forallb] in Hpre. apply andb_prop in Hpre. destruct Hpre as [Ho Hpre].
    cbn [app main_options].
    destruct (proj1 (main_option_proceeds o v) Ho) as [v1 Hv1].
    destruct (main_option atof o v) as [[status|v2] lines]; [discriminate|].
    apply (IH Hpre).
Qed.

(** X19. The first [-h], [-v] or unrecognised option ends [main] on the spot:
    what follows it on the command line is never looked at, what precedes
    it (a missing device, thresholds that would be rejected, [-l]) does
    not matter, and the status is 0 for [-h] and [-v] and 1 for an
    unrecognised option. *)
Theorem main_returns_at_first_terminating_option
    (fs : filesystem) (devices : device_dir)
    (pre : list cli_option) (opt : cli_option) (post : list cli_option) :
  forallb proceeds pre = true ->
  proceeds opt = false ->
  main atof fs devices (pre ++ opt :: post) = main atof fs devices (pre ++ [opt])
  /\ fst (main atof fs devices (pre ++ opt :: post))
     = MainReturns (match opt with OptUnrecognised => 1 | _ => 0 end).
Proof.
  intros Hpre Hopt. unfold main.
  destruct (main_options_stop pre opt post Hpre Hopt main_vars_init [])
    as [Heq [out' Hres]].
  rewrite <- Heq, Hres. split; reflexivity.
Qed.

(** X20. With [-n] the sound directory is never examined: whatever the file
    system holds, [main] does the same, returns the same status and
    prints the same lines. *)
Theorem main_no_sound_skips_validation
    (fs1 fs2 : filesystem) (devices : device_dir) (opts : list cli_option) :
  In OptNoSound opts ->
  main atof fs1 devices opts = main atof fs2 devices opts.
Proof.
  intros Hin. unfold main.
  destruct (main_options atof opts main_vars_init []) as [[status|v] out] eqn:Hopts;
    [reflexivity|].
  destruct (main_options_vars opts _ _ _ _ Hopts) as (_ & _ & _ & Hquiet).
  unfold main_checks. rewrite (Hquiet (or_intror Hin)). reflexivity.
Qed.

End MainFacts.

Lemma main_monitors_only_when_checked_witness :
  exists v out,
    main atof_sample fs_complete devices_sample
      [OptDebug; OptInput "/dev/input/event0"]
    = (MainMonitors "/dev/input/event0" v, out)
    /\ settings_accepted (thresholds v) = true
    /\ debug_flag v = true.
Proof.
  eexists. eexists. split; [reflexivity|].
  split; [|reflexivity].
  exact (proj1 (proj2 (proj2 (proj2 (proj2
           (main_monitors_only_when_checked atof_sample fs_complete devices_sample
              [OptDebug; OptInput "/dev/input/event0"] _ _ _ eq_refl)))))).
Defined.

Lemma main_returns_at_first_terminating_option_witness :
  fst (main atof_sample fs_without_7 devices_sample
         [OptMinThreshold "-5"; OptHelp; OptUnrecognised])
  = MainReturns 0.
Proof.
  exact (proj2 (main_returns_at_first_terminating_option atof_sample fs_without_7
                  devices_sample [OptMinThreshold "-5"] OptHelp [OptUnrecognised]
                  eq_refl eq_refl)).
Defined.

Lemma main_no_sound_skips_validation_witness :
  main atof_sample fs_complete devices_sample [OptNoSound; OptInput "/dev/input/event0"]
  = main atof_sample fs_without_7 devices_sample [OptNoSound; OptInput "/dev/input/event0"].
Proof.
  apply (main_no_sound_skips_validation atof_sample fs_complete fs_without_7).
  left. reflexivity.
Defined.

(** ** Bursts of events and the hand-over to the player *)

Lemma monitor_event_current (log : double -> double) (cfg : settings)
    (ev : input_event) (g : globals) :
  current_intensity (snd (monitor_event log cfg ev g))
  = pending_after log cfg [ev] (current_intensity g).
Proof.
  unfold pending_after, monitor_event. cbn [fold_left].
  destruct (motion_sample ev) as [[dx dy]|]; [|reflexivity].
  unfold bind.
  pose proof (calculate_intensity_value log cfg dx dy g) as Hv.
  destruct (calculate_intensity log cfg dx dy g) as [v g1]. cbn [fst snd] in *.
  subst v. apply deposit_latest_wins.
Qed.

Lemma pending_after_range (log : double -> double) (cfg : settings)
    (events : list input_event) (current : Z) :
  pending_after log cfg events current = current
  \/ 1 <= pending_after log cfg events current <= NUM_INTENSITY_LEVELS.
Proof.
  revert current. unfold pending_after.
  induction events as [|ev events IH]; intros current; cbn [fold_left]; [auto|].
  destruct (motion_sample ev) as [[dx dy]|].
  - pose proof (intensity_of_range log cfg dx dy) as Hrange.
    destruct (IH (intensity_of log cfg dx dy)) as [H|H];
      [rewrite H|]; right; auto.
  - apply IH.
Qed.

Section Bursts.

Variable log : double -> double.
Variable cfg : settings.

Lemma run_app (xs ys : list action) (p : process) :
  run log cfg (xs ++ ys) p
  = match run log cfg xs p with
    | Some p' => run log cfg ys p'
    | None => None
    end.
Proof.
  revert p. induction xs as [|a xs IH]; intros p; cbn [app run]; [reflexivity|].
  destruct (step log cfg p a); [apply IH|reflexivity].
Qed.

Lemma burst_run (events : list input_event) :
  forall p,
    exit_status p = None -> monitor p = MonitorReading -> running (mem p) = true ->
    exists g,
      run log cfg (map ReadEvent events) p = Some (with_mem p g)
      /\ current_intensity g = pending_after log cfg events (current_intensity (mem p))
      /\ running g = true
      /\ is_playing g = is_playing (mem p).
Proof.
  induction events as [|ev events IH]; intros p Hlive Hmon Hrun.
  - exists (mem p). destruct p. cbn. auto.
  - cbn [map run]. unfold step. rewrite Hlive. cbn [step_running]. rewrite Hmon, Hrun.
    destruct (IH (with_mem p (snd (monitor_event log cfg ev (mem p)))))
      as (g & Hg & Hcur & Hr & Hp).
    + exact Hlive.
    + exact Hmon.
    + cbn. rewrite monitor_event_running. exact Hrun.
    + exists g. cbn in Hg, Hcur, Hp. rewrite Hg. split; [reflexivity|].
      rewrite Hcur, monitor_event_current. split; [reflexivity|].
      split; [exact Hr|]. rewrite Hp.
      exact (proj1 (monitor_event_frame log cfg ev (mem p))).
Qed.

(** X21. Coalescing.  A burst of events read one after the other, the player
    not running in between, leaves one pending level: that of the last
    relative-motion event on X or Y of the burst, whatever the earlier ones
    were and whether or not the player is busy; without such an event the
    slot keeps what it held.  The player thread is not moved by it. *)
Theorem burst_collapses_to_last_level
    (debug_enabled : bool) (p : process) (events : list input_event) :
  reachable log cfg debug_enabled p ->
  exit_status p = None ->
  monitor p = MonitorReading ->
  exists p',
    run log cfg (map ReadEvent events) p = Some p'
    /\ current_intensity (mem p')
       = pending_after log cfg events (current_intensity (mem p))
    /\ player p' = player p
    /\ exit_status p' = None.
Proof.
  intros Hreach Hlive Hmon.
  pose proof (proj1 (reachable_running log cfg debug_enabled p Hreach)) as Hrun.
  rewrite Hmon in Hrun. cbn in Hrun.
  destruct (burst_run events p Hlive Hmon Hrun) as (g & Hg & Hcur & _).
  exists (with_mem p g). cbn. auto.
Qed.

(** X22. What the monitor deposits is what the player takes.  When the player
    is at the head of its loop or waiting, a burst of events containing a
    relative-motion event on X or Y, followed by a run of the player, makes
    the player play the level of the last such event, with the slot reset
    to 0 and [is_playing] set. *)
Theorem player_takes_last_level
    (debug_enabled : bool) (p : process) (events : list input_event) :
  reachable log cfg debug_enabled p ->
  exit_status p = None ->
  monitor p = MonitorReading ->
  player p = PlayerLoop \/ player p = PlayerWaiting ->
  existsb (fun ev => match motion_sample ev with Some _ => true | None => false end)
    events = true ->
  exists p',
    run log cfg (map ReadEvent events ++ [PlayerRuns]) p = Some p'
    /\ player p'
       = PlayerPlaying (pending_after log cfg events (current_intensity (mem p)))
    /\ current_intensity (mem p') = 0
    /\ is_playing (mem p') = true.
Proof.
  intros Hreach Hlive Hmon Hpc Hsome.
  pose proof (proj1 (reachable_running log cfg debug_enabled p Hreach)) as Hrun.
  rewrite Hmon in Hrun. cbn in Hrun.
  destruct (burst_run events p Hlive Hmon Hrun) as (g & Hg & Hcur & Hr & _).
  assert (Hlevel : 1 <= pending_after log cfg events (current_intensity (mem p))
                   <= NUM_INTENSITY_LEVELS).
  { clear Hg Hcur. generalize (current_intensity (mem p)). unfold pending_after.
    induction events as [|ev events IH]; intros current; [discriminate Hsome|].
    cbn [existsb] in Hsome. cbn [fold_left].
    destruct (motion_sample ev) as [[dx dy]|].
    - destruct (pending_after_range log cfg events (intensity_of log cfg dx dy)) as [H|H].
      + unfold pending_after in H. rewrite H. apply intensity_of_range.
      + exact H.
    - apply IH. exact Hsome. }
  assert (Htake : player_locked g
                  = (PlayerPlaying (current_intensity g),
                     set_is_playing true (set_current_intensity 0 g))).
  { unfold player_locked. run_prog.
    assert (Hne : (current_intensity g =? 0) = false).
    { apply Z.eqb_neq. rewrite Hcur. unfold NUM_INTENSITY_LEVELS in Hlevel. lia. }
    rewrite Hne, Hr. reflexivity. }
  exists (with_player (with_mem p g) (player_locked g)).
  rewrite run_app, Hg. cbn [run]. unfold step.
  cbn [exit_status with_mem]. rewrite Hlive. cbn [step_running player with_mem mem].
  split.
  - destruct Hpc as [Hpc|Hpc]; rewrite Hpc;
      rewrite ?player_loop_head_running by exact Hr; reflexivity.
  - rewrite Htake. cbn. rewrite Hcur. auto.
Qed.

End Bursts.

Lemma burst_collapses_to_last_level_witness :
  exists p',
    run log_sample default_settings
      (map ReadEvent [rel_x 0; rel_y 200; key_event; rel_x 10]) process_playing
    = Some p'
    /\ current_intensity (mem p') = 6
    /\ player p' = PlayerPlaying 10.
Proof.
  destruct (burst_collapses_to_last_level log_sample default_settings false process_playing
              [rel_x 0; rel_y 200; key_event; rel_x 10]
              process_playing_reachable eq_refl eq_refl)
    as (p' & Hrun & Hcur & Hpc & _).
  exists p'. split; [exact Hrun|]. split; [exact Hcur|exact Hpc].
Defined.

Lemma player_takes_last_level_witness :
  exists p',
    run log_sample default_settings
      (map ReadEvent [rel_x 10; rel_y 200] ++ [PlayerRuns]) (process_init false)
    = Some p'
    /\ player p' = PlayerPlaying 10
    /\ current_intensity (mem p') = 0.
Proof.
  destruct (player_takes_last_level log_sample default_settings false (process_init false)
              [rel_x 10; rel_y 200]
              (reachable_init _ _ _) eq_refl eq_refl (or_introl eq_refl) eq_refl)
    as (p' & Hrun & Hpc & Hcur & _).
  exists p'. split; [exact Hrun|]. split; [exact Hpc|exact Hcur].
Defined.

(** ** NaN thresholds *)

Lemma ltb_nan (a b : double) :
  PrimFloat.is_nan a = true \/ PrimFloat.is_nan b = true -> (a <? b)%float = false.
Proof.
  rewrite FloatAxioms.ltb_spec, !is_nan_spec. unfold SFltb.
  destruct (Prim2SF a); destruct (Prim2SF b); cbn;
    intros [H|H]; try discriminate H; reflexivity.
Qed.

(** X23. A NaN threshold, which the checks of [main] let through, is never
    crossed: with a NaN minimum no call returns through the below-threshold
    test, and with both thresholds NaN every call, for a zero delta too,
    goes through the scaling formula and the clamp, and is counted. *)
Theorem nan_thresholds_disable_early_returns
    (log : double -> double) (cfg : settings) (dx dy : Z) (g : globals) :
  PrimFloat.is_nan (min_movement_threshold cfg) = true ->
  PrimFloat.is_nan (max_movement_threshold cfg) = true ->
  let r := calculate_intensity log cfg dx dy g in
  fst r = clamp_intensity
            (int_of_double (intensity_scaled_of log cfg (movement_of dx dy) + 0.5)%float)
  /\ total_movements (debug (snd r)) = wrap_long (total_movements (debug g) + 1).
Proof.
  intros Hmin Hmax. unfold calculate_intensity. run_prog.
  rewrite (ltb_nan (movement_of dx dy) _ (or_intror Hmin)).
  rewrite (ltb_nan _ (movement_of dx dy) (or_introl Hmax)).
  cbn. destruct (enabled (debug g)); cbn; auto.
Qed.

Lemma nan_thresholds_disable_early_returns_witness :
  settings_accepted nan_settings = true
  /\ total_movements
       (debug (snd (calculate_intensity log_sample nan_settings 0 0 (globals_init false))))
     = 1.
Proof.
  split; [reflexivity|].
  exact (proj2 (nan_thresholds_disable_early_returns log_sample nan_settings 0 0
                  (globals_init false) eq_refl eq_refl)).
Defined.
